(** * Contact-Management: the request handlers of [server.js]

    A shallow embedding of the Express handlers of [src/server.js] (list and
    search, create, update, delete) together with the parts of their
    environment the handlers rely on: JavaScript string primitives, regular
    expression matching, the Mongoose schema of [Contact] (setters and
    validators), ObjectId casting, and a MongoDB collection with a unique
    index on [phone].

    What the model fixes about that environment:
    - a string is a sequence of characters below U+0100, each held in one
      [ascii]; [trim], [toLowerCase] and the letter case the search ignores
      are those of JavaScript and of the database on these characters;
    - a field of the request body is absent or a string;
    - the patterns of the schema ([match], the phone validator) are run by
      the JavaScript engine, the search pattern by the database, whose [.]
      refuses the newline only and whose [\s] is the white space of ASCII;
    - what the database does with a search pattern outside the grammar
      modelled here, and how it collates a name that is not ASCII, is not
      computed: it is taken from a [database] the list route is given, and
      everything proved holds for every such [database];
    - an ObjectId is cast from a string of 24 hexadecimal digits;
    - an update casts its id before it runs the validators, and both happen
      before the collection is touched;
    - the clock and the ObjectId of a new document are inputs of a request. *)

From Stdlib Require Import Ascii String NArith.
From stdpp Require Import base list strings gmap sorting.

Local Open Scope N_scope.

(** A JavaScript string literal, as the sequence of its characters. *)
Definition str (s : string) : list ascii := list_ascii_of_string s.

(** ** Characters *)

Module Char.

Definition code (a : ascii) : N := N_of_ascii a.

Definition isUpper (a : ascii) : bool := (65 <=? code a) && (code a <=? 90).
Definition isLower (a : ascii) : bool := (97 <=? code a) && (code a <=? 122).
Definition isDigit (a : ascii) : bool := (48 <=? code a) && (code a <=? 57).

(** [\w] is [[A-Za-z0-9_]]. *)
Definition isWord (a : ascii) : bool :=
  isUpper a || isLower a || isDigit a || (code a =? 95).

(** TAB, LF, VT, FF, CR, SPACE and NO-BREAK SPACE: what
    [String.prototype.trim] strips. *)
Definition isWhiteSpace (a : ascii) : bool :=
  ((9 <=? code a) && (code a <=? 13)) || (code a =? 32) || (code a =? 160).

(** TAB, LF, VT, FF, CR and SPACE: what [\s] matches in the database. *)
Definition isSpaceClass (a : ascii) : bool :=
  ((9 <=? code a) && (code a <=? 13)) || (code a =? 32).

(** LF and CR: what [.] refuses in a JavaScript regular expression. *)
Definition isLineTerminator (a : ascii) : bool :=
  (code a =? 10) || (code a =? 13).

Definition isNewline (a : ascii) : bool := code a =? 10.

Definition isNul (a : ascii) : bool := code a =? 0.

Definition isAscii (a : ascii) : bool := code a <? 128.

(** The capitals: [A] to [Z], and U+00C0 to U+00DE without the
    multiplication sign. *)
Definition isUpperCase (a : ascii) : bool :=
  isUpper a || ((192 <=? code a) && (code a <=? 214))
            || ((216 <=? code a) && (code a <=? 222)).

(** [String.prototype.toLowerCase] on one character; it is also the case
    folding of the search. *)
Definition toLower (a : ascii) : ascii :=
  if isUpperCase a then ascii_of_N (code a + 32) else a.

Definition isHexDigit (a : ascii) : bool :=
  isDigit a || ((65 <=? code a) && (code a <=? 70))
            || ((97 <=? code a) && (code a <=? 102)).

Definition hexValue (a : ascii) : N :=
  if isDigit a then code a - 48
  else if isUpper a then code a - 55
  else code a - 87.

End Char.

(** ** JavaScript string primitives *)

Definition toLowerCase (s : list ascii) : list ascii := Char.toLower <$> s.

Fixpoint trimStart (s : list ascii) : list ascii :=
  match s with
  | a :: s' => if Char.isWhiteSpace a then trimStart s' else s
  | [] => []
  end.

Definition trimEnd (s : list ascii) : list ascii :=
  reverse (trimStart (reverse s)).

Definition trim (s : list ascii) : list ascii := trimEnd (trimStart s).

(** ** Regular expressions *)

Inductive charclass : Type :=
  | CChar (c : ascii)        (* a pattern character *)
  | CAny                     (* every character *)
  | CDot                     (* [.] in JavaScript: no line terminator *)
  | CDotPcre                 (* [.] in PCRE: no newline *)
  | CDigit                   (* [\d] *)
  | CWord                    (* [\w] *)
  | CSpace                   (* [\s] *)
  | CNot (k : charclass).    (* [\D], [\W], [\S] *)

Inductive regex : Type :=
  | Eps
  | Fail
  | Atom (k : charclass)
  | Bol                      (* [^] *)
  | Eol                      (* [$] *)
  | Cat (r1 r2 : regex)
  | Alt (r1 r2 : regex)
  | Star (r : regex).

Definition Plus (r : regex) : regex := Cat r (Star r).
Definition Opt (r : regex) : regex := Alt r Eps.

Fixpoint Repeat (n : nat) (r : regex) : regex :=
  match n with
  | O => Eps
  | S n' => Cat r (Repeat n' r)
  end.

Definition isNil {A} (w : list A) : bool :=
  match w with [] => true | _ => false end.

Section Matching.

(** The [i] flag. *)
Variable icase : bool.

Fixpoint classMatch (k : charclass) (a : ascii) : bool :=
  match k with
  | CChar c =>
      if icase then bool_decide (Char.toLower c = Char.toLower a)
      else bool_decide (c = a)
  | CAny => true
  | CDot => negb (Char.isLineTerminator a)
  | CDotPcre => negb (Char.isNewline a)
  | CDigit => Char.isDigit a
  | CWord => Char.isWord a
  | CSpace => Char.isSpaceClass a
  | CNot k' => negb (classMatch k' a)
  end.

(** [rmatch st en r w]: [r] matches the piece [w] of the input, where [st]
    says that [w] starts at the start of the input and [en] that it ends
    at the end of the input. *)
Inductive rmatch : bool → bool → regex → list ascii → Prop :=
  | MEps st en : rmatch st en Eps []
  | MAtom st en k a : classMatch k a = true → rmatch st en (Atom k) [a]
  | MBol en : rmatch true en Bol []
  | MEol st : rmatch st true Eol []
  | MCat st en r1 r2 w1 w2 :
      rmatch st (en && isNil w2) r1 w1 →
      rmatch (st && isNil w1) en r2 w2 →
      rmatch st en (Cat r1 r2) (w1 ++ w2)
  | MAltL st en r1 r2 w : rmatch st en r1 w → rmatch st en (Alt r1 r2) w
  | MAltR st en r1 r2 w : rmatch st en r2 w → rmatch st en (Alt r1 r2) w
  | MStarNil st en r : rmatch st en (Star r) []
  | MStarCons st en r a w1 w2 :
      rmatch st (en && isNil w2) r (a :: w1) →
      rmatch false en (Star r) w2 →
      rmatch st en (Star r) (a :: w1 ++ w2).

(** The matcher: Brzozowski derivatives, with the two anchors. *)
Fixpoint nullable (st en : bool) (r : regex) : bool :=
  match r with
  | Eps => true
  | Fail => false
  | Atom _ => false
  | Bol => st
  | Eol => en
  | Cat r1 r2 => nullable st en r1 && nullable st en r2
  | Alt r1 r2 => nullable st en r1 || nullable st en r2
  | Star _ => true
  end.

Fixpoint deriv (st : bool) (a : ascii) (r : regex) : regex :=
  match r with
  | Eps | Fail | Bol | Eol => Fail
  | Atom k => if classMatch k a then Eps else Fail
  | Cat r1 r2 =>
      Alt (Cat (deriv st a r1) r2)
          (if nullable st false r1 then deriv st a r2 else Fail)
  | Alt r1 r2 => Alt (deriv st a r1) (deriv st a r2)
  | Star r1 => Cat (deriv st a r1) (Star r1)
  end.

Fixpoint matchFrom (st : bool) (r : regex) (w : list ascii) : bool :=
  match w with
  | [] => nullable st true r
  | a :: w' => matchFrom false (deriv st a r) w'
  end.

(** [RegExp.prototype.test]: some piece of the input matches. *)
Definition anyStar : regex := Star (Atom CAny).

Definition test (r : regex) (w : list ascii) : bool :=
  matchFrom true (Cat anyStar (Cat r anyStar)) w.

End Matching.

(** ** [new RegExp(search, 'i')]

    The pattern grammar covered: pattern characters, [.], [^], the class
    escapes [\d \D \w \W \s \S], the control escapes [\t \n \r \f],
    escaped punctuation, groups [( )] and [(?: )], alternation and the
    quantifiers [* + ?] with their lazy forms.  The constructor throws a
    SyntaxError on an unbalanced parenthesis, a quantifier with nothing to
    repeat or a trailing backslash.  Everything else (brackets, braces, [$],
    look-around, back references, the remaining escapes) is reported as
    [Unsupported]: what becomes of such a search is the [database]'s to
    say. *)

Inductive token : Type :=
  | TLParen | TRParen | TBar | TStar | TPlus | TQuest
  | TDot | TCaret | TDollar | TBackslash | TBrace | TChar.

Definition classify (c : ascii) : token :=
  if Ascii.eqb c "(" then TLParen
  else if Ascii.eqb c ")" then TRParen
  else if Ascii.eqb c "|" then TBar
  else if Ascii.eqb c "*" then TStar
  else if Ascii.eqb c "+" then TPlus
  else if Ascii.eqb c "?" then TQuest
  else if Ascii.eqb c "." then TDot
  else if Ascii.eqb c "^" then TCaret
  else if Ascii.eqb c "$" then TDollar
  else if Ascii.eqb c "\" then TBackslash
  else if Ascii.eqb c "[" || Ascii.eqb c "]"
          || Ascii.eqb c "{" || Ascii.eqb c "}" then TBrace
  else TChar.

(** SyntaxCharacter of the ECMAScript pattern grammar. *)
Definition isSyntaxCharacter (c : ascii) : bool :=
  bool_decide (c ∈ str "^$\.*+?()[]{}|").

(** The class or character an escape [\e] denotes. *)
Definition escape (e : ascii) : option charclass :=
  if Ascii.eqb e "d" then Some CDigit
  else if Ascii.eqb e "D" then Some (CNot CDigit)
  else if Ascii.eqb e "w" then Some CWord
  else if Ascii.eqb e "W" then Some (CNot CWord)
  else if Ascii.eqb e "s" then Some CSpace
  else if Ascii.eqb e "S" then Some (CNot CSpace)
  else if Ascii.eqb e "t" then Some (CChar (ascii_of_N 9))
  else if Ascii.eqb e "n" then Some (CChar (ascii_of_N 10))
  else if Ascii.eqb e "f" then Some (CChar (ascii_of_N 12))
  else if Ascii.eqb e "r" then Some (CChar (ascii_of_N 13))
  else if Char.isUpper e || Char.isLower e || Char.isDigit e then None
  else if 128 <=? Char.code e then None
  else Some (CChar e).

Inductive repeatable : Type :=
  | NoRepeat        (* nothing to repeat: start of an alternative, an anchor *)
  | CanRepeat       (* the last term is an atom *)
  | Repeated.       (* the last term is quantified: only a lazy [?] fits *)

(** A disjunction under construction: the alternatives read so far, the
    terms of the current alternative (both latest first), and what the
    latest term admits. *)
Record frame : Type := Frame {
  alts : list regex;
  terms : list regex;
  lastTerm : repeatable
}.

Definition emptyFrame : frame := Frame [] [] NoRepeat.

Definition pushAtom (r : regex) (f : frame) : frame :=
  Frame (alts f) (r :: terms f) CanRepeat.

Definition pushAssertion (r : regex) (f : frame) : frame :=
  Frame (alts f) (r :: terms f) NoRepeat.

Definition alternative (ts : list regex) : regex :=
  foldr Cat Eps (reverse ts).

Definition nextAlternative (f : frame) : frame :=
  Frame (alternative (terms f) :: alts f) [] NoRepeat.

Definition disjunction (f : frame) : regex :=
  fold_left (λ acc a, Alt a acc) (alts f) (alternative (terms f)).

Definition quantify (q : regex → regex) (lazy : bool) (f : frame)
  : option frame :=
  match lastTerm f, terms f with
  | CanRepeat, r :: ts => Some (Frame (alts f) (q r :: ts) Repeated)
  | Repeated, _ => if lazy then Some (Frame (alts f) (terms f) NoRepeat)
                   else None
  | _, _ => None
  end.

Inductive parsed : Type :=
  | Parsed (r : regex)
  | SyntaxError
  | Unsupported.

Fixpoint parseLoop (cur : frame) (stack : list frame) (s : list ascii)
  : parsed :=
  match s with
  | [] =>
      match stack with
      | [] => Parsed (disjunction cur)
      | _ :: _ => SyntaxError                      (* unterminated group *)
      end
  | c :: s' =>
      match classify c with
      | TLParen =>
          match s' with
          | c1 :: s1 =>
              if Ascii.eqb c1 "?" then
                match s1 with
                | c2 :: s2 =>
                    if Ascii.eqb c2 ":"
                    then parseLoop emptyFrame (cur :: stack) s2
                    else Unsupported
                | [] => SyntaxError
                end
              else parseLoop emptyFrame (cur :: stack) s'
          | [] => SyntaxError
          end
      | TRParen =>
          match stack with
          | parent :: stack' =>
              parseLoop (pushAtom (disjunction cur) parent) stack' s'
          | [] => SyntaxError                      (* unmatched ')' *)
          end
      | TBar => parseLoop (nextAlternative cur) stack s'
      | TStar =>
          match quantify Star false cur with
          | Some f => parseLoop f stack s'
          | None => SyntaxError                    (* nothing to repeat *)
          end
      | TPlus =>
          match quantify Plus false cur with
          | Some f => parseLoop f stack s'
          | None => SyntaxError
          end
      | TQuest =>
          match quantify Opt true cur with
          | Some f => parseLoop f stack s'
          | None => SyntaxError
          end
      | TDot => parseLoop (pushAtom (Atom CDotPcre) cur) stack s'
      | TCaret => parseLoop (pushAssertion Bol cur) stack s'
      | TDollar => Unsupported
      | TBackslash =>
          match s' with
          | e :: s1 =>
              match escape e with
              | Some k => parseLoop (pushAtom (Atom k) cur) stack s1
              | None => Unsupported
              end
          | [] => SyntaxError                      (* \ at end of pattern *)
          end
      | TBrace => Unsupported
      | TChar => parseLoop (pushAtom (Atom (CChar c)) cur) stack s'
      end
  end.

Definition parseRegExp (pattern : list ascii) : parsed :=
  parseLoop emptyFrame [] pattern.

(** ** ObjectId *)

Definition hexToN (v : list ascii) : N :=
  fold_left (λ acc a, 16 * acc + Char.hexValue a) v 0.

(** Casting the [:id] path parameter: a string of 24 hexadecimal digits. *)
Definition castObjectId (v : list ascii) : option N :=
  if (length v =? 24)%nat && forallb Char.isHexDigit v
  then Some (hexToN v) else None.

(** ** The Contact schema *)

Record contact : Type := mkContact {
  _id : N;
  name : list ascii;
  email : list ascii;
  phone : list ascii;
  createdAt : N;
  updatedAt : N
}.

Global Instance contact_eq_dec : EqDecision contact.
Proof. solve_decision. Defined.

(** [/.+\@.+\..+/] *)
Definition emailPattern : regex :=
  Cat (Plus (Atom CDot))
    (Cat (Atom (CChar "@"))
       (Cat (Plus (Atom CDot))
          (Cat (Atom (CChar ".")) (Plus (Atom CDot))))).

(** [/^\d{10}$/] *)
Definition phonePattern : regex :=
  Cat Bol (Cat (Repeat 10 (Atom CDigit)) Eol).

Module Schema.

(** Setters run last-declared first: [lowercase], then [trim]. *)
Definition setName (v : list ascii) : list ascii := trim v.
Definition setEmail (v : list ascii) : list ascii := trim (toLowerCase v).
Definition setPhone (v : list ascii) : list ascii := trim v.

(** Validators of one path: [required] first, and the first failure is
    the path's error. *)
Definition validateName (v : list ascii) : option (list ascii) :=
  if isNil v then Some (str "Name is required.") else None.

Definition validateEmail (v : list ascii) : option (list ascii) :=
  if isNil v then Some (str "Email is required.")
  else if test false emailPattern v then None
  else Some (str "Please enter a valid email address.").

Definition validatePhone (v : list ascii) : option (list ascii) :=
  if isNil v then Some (str "Phone number is required.")
  else if test false phonePattern v then None
  else Some (v ++ str " is not a valid 10-digit phone number!").

Definition pathError (path : string) (e : option (list ascii))
  : list (list ascii) :=
  match e with
  | Some m => [str path ++ str ": " ++ m]
  | None => []
  end.

(** The errors of the three paths, in schema order. *)
Definition errors (n e p : list ascii) : list (list ascii) :=
  pathError "name" (validateName n)
    ++ pathError "email" (validateEmail e)
    ++ pathError "phone" (validatePhone p).

(** The errors the update validators report: the same, last path first. *)
Definition updateErrors (n e p : list ascii) : list (list ascii) :=
  pathError "phone" (validatePhone p)
    ++ pathError "email" (validateEmail e)
    ++ pathError "name" (validateName n).

Fixpoint joinWith (sep : list ascii) (l : list (list ascii)) : list ascii :=
  match l with
  | [] => []
  | [x] => x
  | x :: l' => x ++ sep ++ joinWith sep l'
  end.

Definition message (prefix : string) (errs : list (list ascii))
  : list ascii :=
  str prefix ++ str ": " ++ joinWith (str ", ") errs.

End Schema.

(** ** Errors and responses *)

Inductive failure : Type :=
  | ValidationError (message : list ascii)
  | MongoServerError (code : N)
  | CastError (value : list ascii)
  | RegExpSyntaxError (pattern : list ascii)
  | BSONError (pattern : list ascii).

Definition errName (e : failure) : string :=
  match e with
  | ValidationError _ => "ValidationError"
  | MongoServerError _ => "MongoServerError"
  | CastError _ => "CastError"
  | RegExpSyntaxError _ => "SyntaxError"
  | BSONError _ => "BSONError"
  end.

Definition errCode (e : failure) : option N :=
  match e with
  | MongoServerError c => Some c
  | _ => None
  end.

Inductive result (A : Type) : Type :=
  | Ok (a : A)
  | Throw (e : failure).
Arguments Ok {A} a.
Arguments Throw {A} e.

Inductive json : Type :=
  | JContacts (l : list contact)
  | JContact (c : contact)
  | JMessage (message : list ascii)
  | JError (message : list ascii) (error : failure).

Record response : Type := Response { status : N; body : json }.

(** ** The collection *)

(** What the handlers do not compute themselves: the clock and the
    ObjectId generated for a new document. *)
Record env : Type := Env { now : N; newObjectId : N }.

(** [phoneTaken p self s]: the unique index on [phone] holds [p] for a
    document other than [self]. *)
Definition phoneTaken (p : list ascii) (self : option N)
    (s : gmap N contact) : bool :=
  existsb (λ kv, bool_decide (phone kv.2 = p)
                 && negb (bool_decide (self = Some kv.1)))
          (map_to_list s).

(** *** What the database is asked

    The list route hands the database a pattern and a collation.  What the
    database makes of a pattern outside the grammar of [parseRegExp] (it
    refuses it, or it selects names by it) and the sort key it gives a name
    that is not ASCII are taken from a [database]. *)

Inductive beyond : Type :=
  | Refused (e : failure)
  | Selects (f : list ascii → bool).

Record database : Type := Database {
  beyondGrammar : list ascii → beyond;
  sortKey : list ascii → list N
}.

(** *** Collation [{locale: 'en', strength: 2}]

    Primary weights of the ASCII characters in the order of the root
    collation: white space, punctuation, symbols, the dollar sign, digits,
    letters; a letter and its capital weigh the same, and the remaining
    control characters are ignored.  The sort key of an ASCII name is the
    sequence of its primary weights, counted from 1, closed by the level
    separator 0: ASCII has nothing to tell apart at the second level.  Two
    names compare as their sort keys do, left to right. *)
Definition collationOrder : list ascii :=
  map ascii_of_N [9; 10; 11; 12; 13; 32]
    ++ str "_-,;:!?.'" ++ [ascii_of_N 34] ++ str "()[]{}@*/\&#%`^+<=>|~$"
    ++ str "0123456789abcdefghijklmnopqrstuvwxyz".

Fixpoint indexOf (a : ascii) (l : list ascii) : option N :=
  match l with
  | [] => None
  | b :: l' => if Ascii.eqb a b then Some 0 else N.succ <$> indexOf a l'
  end.

Definition primaryWeight (a : ascii) : option N :=
  N.succ <$> indexOf (Char.toLower a) collationOrder.

Definition asciiKey (v : list ascii) : list N := omap primaryWeight v ++ [0].

Definition collationKey (db : database) (v : list ascii) : list N :=
  if forallb Char.isAscii v then asciiKey v else sortKey db v.

Fixpoint lexLe (k1 k2 : list N) : bool :=
  match k1, k2 with
  | [], _ => true
  | _ :: _, [] => false
  | x :: k1', y :: k2' => (x <? y) || ((x =? y) && lexLe k1' k2')
  end.

Definition collationLe (db : database) (v1 v2 : list ascii) : Prop :=
  lexLe (collationKey db v1) (collationKey db v2) = true.

Global Instance collationLe_dec db : RelDecision (collationLe db).
Proof. intros v1 v2. unfold collationLe. apply _. Defined.

Definition nameLe (db : database) (c d : contact) : Prop :=
  collationLe db (name c) (name d).

Global Instance nameLe_dec db : RelDecision (nameLe db).
Proof. intros c d. unfold nameLe, collationLe. apply _. Defined.

Module Contact.

(** [new Contact({name, email, phone}).save()] *)
Definition save (ev : env) (n e p : list ascii) (s : gmap N contact)
  : result (gmap N contact * contact) :=
  let n' := Schema.setName n in
  let e' := Schema.setEmail e in
  let p' := Schema.setPhone p in
  match Schema.errors n' e' p' with
  | (_ :: _) as errs =>
      Throw (ValidationError (Schema.message "Contact validation failed" errs))
  | [] =>
      let doc := mkContact (newObjectId ev) n' e' p' (now ev) (now ev) in
      if bool_decide (is_Some (s !! _id doc)) || phoneTaken p' None s
      then Throw (MongoServerError 11000)
      else Ok (<[_id doc := doc]> s, doc)
  end.

(** [Contact.findByIdAndUpdate(id, {name, email, phone},
    {new: true, runValidators: true})] *)
Definition findByIdAndUpdate (ev : env) (id n e p : list ascii)
    (s : gmap N contact) : result (gmap N contact * option contact) :=
  match castObjectId id with
  | None => Throw (CastError id)
  | Some i =>
      let n' := Schema.setName n in
      let e' := Schema.setEmail e in
      let p' := Schema.setPhone p in
      match Schema.updateErrors n' e' p' with
      | (_ :: _) as errs =>
          Throw (ValidationError (Schema.message "Validation failed" errs))
      | [] =>
          match s !! i with
          | None => Ok (s, None)
          | Some old =>
              let doc :=
                mkContact (_id old) n' e' p' (createdAt old) (now ev) in
              if phoneTaken p' (Some i) s
              then Throw (MongoServerError 11000)
              else Ok (<[i := doc]> s, Some doc)
          end
      end
  end.

(** [Contact.findByIdAndDelete(id)] *)
Definition findByIdAndDelete (id : list ascii) (s : gmap N contact)
  : result (gmap N contact * option contact) :=
  match castObjectId id with
  | None => Throw (CastError id)
  | Some i =>
      match s !! i with
      | None => Ok (s, None)
      | Some c => Ok (delete i s, Some c)
      end
  end.

(** [Contact.find(query).collation(...).sort({name: 1})], where [query] is
    [{}] or [{name: re}], [re] selecting the names it matches. *)
Definition find (db : database) (query : option (list ascii → bool))
    (s : gmap N contact) : list contact :=
  let selected c :=
    match query with
    | None => true
    | Some matches => matches (name c)
    end in
  merge_sort (nameLe db) (List.filter selected (map_to_list s).*2).

End Contact.

(** ** The routes *)

Record reqBody : Type := ReqBody {
  b_name : option (list ascii);
  b_email : option (list ascii);
  b_phone : option (list ascii)
}.

(** [!v] for a field that is absent or a string. *)
Definition falsy (v : option (list ascii)) : bool :=
  match v with
  | None | Some [] => true
  | Some (_ :: _) => false
  end.

Definition field (v : option (list ascii)) : list ascii := default [] v.

(** [app.get('/api/contacts')].  [new RegExp(search, 'i')] throws on a
    string that is no pattern; the query cannot be sent when the pattern
    holds a NUL; otherwise the database selects the names the pattern
    matches, letter case apart. *)
Definition get_api_contacts (db : database) (search : option (list ascii))
    (s : gmap N contact) : response :=
  if falsy search then Response 200 (JContacts (Contact.find db None s))
  else
    match parseRegExp (field search) with
    | SyntaxError =>
        Response 500 (JError (str "Error fetching contacts")
                             (RegExpSyntaxError (field search)))
    | Parsed re =>
        if existsb Char.isNul (field search) then
          Response 500 (JError (str "Error fetching contacts")
                               (BSONError (field search)))
        else
          Response 200 (JContacts (Contact.find db (Some (test true re)) s))
    | Unsupported =>
        match beyondGrammar db (field search) with
        | Refused err =>
            Response 500 (JError (str "Error fetching contacts") err)
        | Selects matches =>
            Response 200 (JContacts (Contact.find db (Some matches) s))
        end
    end.

(** [app.post('/api/contacts')] *)
Definition post_api_contacts (ev : env) (b : reqBody) (s : gmap N contact)
  : gmap N contact * response :=
  if falsy (b_name b) || falsy (b_email b) || falsy (b_phone b) then
    (s, Response 400
          (JMessage (str "Name, email, and phone fields are required.")))
  else
    match Contact.save ev (field (b_name b)) (field (b_email b))
            (field (b_phone b)) s
    with
    | Ok (s', newContact) => (s', Response 201 (JContact newContact))
    | Throw err =>
        if bool_decide (errName err = "ValidationError") then
          (s, Response 400
                (JMessage match err with
                          | ValidationError m => m
                          | _ => []
                          end))
        else if bool_decide (errCode err = Some 11000) then
          (s, Response 409
                (JMessage (str "This phone number is already registered.")))
        else (s, Response 500 (JError (str "Error creating contact") err))
    end.

(** [app.put('/api/contacts/:id')] *)
Definition put_api_contacts_id (ev : env) (id : list ascii) (b : reqBody)
    (s : gmap N contact) : gmap N contact * response :=
  if falsy (b_name b) || falsy (b_email b) || falsy (b_phone b) then
    (s, Response 400 (JMessage (str "Name, email, and phone are required.")))
  else
    match Contact.findByIdAndUpdate ev id (field (b_name b))
            (field (b_email b)) (field (b_phone b)) s
    with
    | Ok (s', None) => (s', Response 404 (JMessage (str "Contact not found")))
    | Ok (s', Some updatedContact) =>
        (s', Response 200 (JContact updatedContact))
    | Throw err =>
        if bool_decide (errName err = "ValidationError") then
          (s, Response 400
                (JMessage match err with
                          | ValidationError m => m
                          | _ => []
                          end))
        else if bool_decide (errCode err = Some 11000) then
          (s, Response 409
                (JMessage (str "This phone number is already registered.")))
        else (s, Response 500 (JError (str "Error updating contact") err))
    end.

(** [app.delete('/api/contacts/:id')] *)
Definition delete_api_contacts_id (id : list ascii) (s : gmap N contact)
  : gmap N contact * response :=
  match Contact.findByIdAndDelete id s with
  | Ok (s', None) => (s', Response 404 (JMessage (str "Contact not found")))
  | Ok (s', Some _) =>
      (s', Response 200 (JMessage (str "Contact deleted successfully")))
  | Throw err => (s, Response 500 (JError (str "Error deleting contact") err))
  end.

(** ** Requests and reachable stores *)

Inductive request : Type :=
  | GetContacts (search : option (list ascii))
  | PostContact (b : reqBody)
  | PutContact (id : list ascii) (b : reqBody)
  | DeleteContact (id : list ascii).

(** The store after a request; a search is read-only. *)
Definition handle (ev : env) (r : request) (s : gmap N contact)
  : gmap N contact :=
  match r with
  | GetContacts _ => s
  | PostContact b => (post_api_contacts ev b s).1
  | PutContact id b => (put_api_contacts_id ev id b s).1
  | DeleteContact id => (delete_api_contacts_id id s).1
  end.

Inductive reachable : gmap N contact → Prop :=
  | reachable_empty : reachable ∅
  | reachable_step ev r s : reachable s → reachable (handle ev r s).

(** ** Vocabulary of the properties *)

(** The body passes the presence check of the create and update routes. *)
Definition hasAllFields (b : reqBody) : bool :=
  negb (falsy (b_name b) || falsy (b_email b) || falsy (b_phone b)).

(** A field is missing or empty. *)
Definition missingOrEmpty (v : option (list ascii)) : Prop :=
  v = None ∨ v = Some [].

(** The body passes the schema's validators once the setters have run. *)
Definition passesValidation (b : reqBody) : bool :=
  isNil (Schema.errors (Schema.setName (field (b_name b)))
                       (Schema.setEmail (field (b_email b)))
                       (Schema.setPhone (field (b_phone b)))).

(** The unique index on [phone]: a phone has one owner. *)
Definition uniquePhones (s : gmap N contact) : Prop :=
  ∀ i j c d, s !! i = Some c → s !! j = Some d → phone c = phone d → i = j.

(** The path parameter names a stored contact. *)
Definition identifies (id : list ascii) (s : gmap N contact) : Prop :=
  ∃ i c, castObjectId id = Some i ∧ s !! i = Some c.

(** [v] contains [sub], letter case apart. *)
Definition containsCI (v sub : list ascii) : Prop :=
  ∃ pre post, toLowerCase v = pre ++ toLowerCase sub ++ post.

Definition noLineTerminator (v : list ascii) : Prop :=
  Forall (λ a, Char.isLineTerminator a = false) v.

(** The whole of [v] reads [X@Y.Z] with [X], [Y] and [Z] non-empty. *)
Definition fullShape (v : list ascii) : Prop :=
  ∃ X Y Z, v = X ++ "@"%char :: Y ++ "."%char :: Z ∧
           X ≠ [] ∧ Y ≠ [] ∧ Z ≠ [].

(** Some piece of [v] reads [X@Y.Z] with [X], [Y] and [Z] non-empty and
    free of line terminators. *)
Definition emailShaped (v : list ascii) : Prop :=
  ∃ pre X Y Z post,
    v = pre ++ (X ++ "@"%char :: Y ++ "."%char :: Z) ++ post ∧
    X ≠ [] ∧ Y ≠ [] ∧ Z ≠ [] ∧
    noLineTerminator X ∧ noLineTerminator Y ∧ noLineTerminator Z.

(** The pattern that reads [sub] character by character. *)
Definition literal (sub : list ascii) : regex :=
  foldr Cat Eps ((λ c, Atom (CChar c)) <$> sub).

(** No character of [sub] is a syntax character of the pattern grammar. *)
Definition plainText (sub : list ascii) : Prop :=
  Forall (λ c, isSyntaxCharacter c = false) sub.

(** No character of [sub] is NUL. *)
Definition noNul (sub : list ascii) : Prop :=
  Forall (λ c, Char.isNul c = false) sub.





(** The contacts a response lists. *)
Definition listed (r : response) : list contact :=
  match r with
  | Response _ (JContacts l) => l
  | _ => []
  end.

(** ** Sample data *)

(** A database that refuses every pattern outside the grammar and gives
    every name that is not ASCII the empty sort key. *)
Definition sampleDatabase : database :=
  Database (λ pattern, Refused (RegExpSyntaxError pattern)) (λ _, []).

Definition jsonBody (n e p : string) : reqBody :=
  ReqBody (Some (str n)) (Some (str e)) (Some (str p)).

Definition bobSmith : reqBody :=
  jsonBody "Bob Smith" "bob@example.com" "5551234567".

(** The collection after Bob Smith is created with ObjectId 1 at time 10. *)
Definition oneContact : gmap N contact :=
  handle (Env 10 1) (PostContact bobSmith) ∅.

Definition idOne : list ascii := str "000000000000000000000001".
Definition idTwo : list ascii := str "000000000000000000000002".

(** Bob Smith, then bobby with his own phone and ObjectId 2. *)
Definition twoContacts : gmap N contact :=
  handle (Env 20 2)
    (PostContact (jsonBody "bobby" "bobby@example.com" "5550000000"))
    oneContact.

(** Names [charlie], [Alice], [bob], created in that order. *)
Definition threeContacts : gmap N contact :=
  handle (Env 30 2)
    (PostContact (jsonBody "bob" "bob@example.com" "5550000003"))
    (handle (Env 20 1)
       (PostContact (jsonBody "Alice" "alice@example.com" "5550000002"))
       (handle (Env 10 3)
          (PostContact (jsonBody "charlie" "charlie@example.com" "5550000001"))
          ∅)).

(** An email with a line break before the [@]. *)
Definition brokenLineEmail : list ascii :=
  str "ann" ++ ascii_of_N 10 :: str "@example.com".

(** ** Vocabulary of the further properties *)

Definition allWhiteSpace (v : list ascii) : Prop :=
  Forall (λ a, Char.isWhiteSpace a = true) v.

(** Exactly ten decimal digits. *)
Definition tenDigits (v : list ascii) : Prop :=
  length v = 10%nat ∧ Forall (λ a, Char.isDigit a = true) v.

(** [v] starts with [sub], letter case apart. *)
Definition startsWithCI (v sub : list ascii) : Prop :=
  ∃ post, toLowerCase v = toLowerCase sub ++ post.

(** What the schema lets through to the collection: a non-empty trimmed
    name, a trimmed lower-case email that matches the email pattern, a phone
    of ten digits. *)
Definition wellFormed (c : contact) : Prop :=
  name c ≠ [] ∧ trim (name c) = name c ∧
  trim (email c) = email c ∧ toLowerCase (email c) = email c ∧
  emailShaped (email c) ∧ tenDigits (phone c).

(** The body that sends a contact's own fields back. *)
Definition bodyOf (c : contact) : reqBody :=
  ReqBody (Some (name c)) (Some (email c)) (Some (phone c)).

(** [reachableBy t s]: [s] is reached by requests served in the order of a
    clock that never runs backwards and now shows [t]. *)
Inductive reachableBy : N → gmap N contact → Prop :=
  | reachableBy_empty t : reachableBy t ∅
  | reachableBy_step t ev r s :
      reachableBy t s → t ≤ now ev → reachableBy (now ev) (handle ev r s).

(* ================================================================== *)
(** * Properties *)

(** ** The matcher agrees with the matching relation *)

Section MatchingFacts.

Variable icase : bool.

Lemma rmatch_mono st en st' en' r w :
  (st = true → st' = true) → (en = true → en' = true) →
  rmatch icase st en r w → rmatch icase st' en' r w.
Proof.
  intros Hst Hen H. revert st' en' Hst Hen.
  induction H; intros st' en' Hst Hen; try (by constructor).
  - rewrite Hst by done. constructor.
  - rewrite Hen by done. constructor.
  - constructor.
    + apply IHrmatch1; [done |]. intros [? ?]%andb_true_iff.
      apply andb_true_iff; auto.
    + apply IHrmatch2; [| done]. intros [? ?]%andb_true_iff.
      apply andb_true_iff; auto.
  - apply MAltL; auto.
  - apply MAltR; auto.
  - constructor.
    + apply IHrmatch1; [done |]. intros [? ?]%andb_true_iff.
      apply andb_true_iff; auto.
    + apply IHrmatch2; done.
Qed.

Lemma rmatch_cat_inv st en r1 r2 w :
  rmatch icase st en (Cat r1 r2) w →
  ∃ w1 w2, w = w1 ++ w2 ∧
    rmatch icase st (en && isNil w2) r1 w1 ∧
    rmatch icase (st && isNil w1) en r2 w2.
Proof. inversion 1; subst; eauto. Qed.

Lemma rmatch_alt_inv st en r1 r2 w :
  rmatch icase st en (Alt r1 r2) w →
  rmatch icase st en r1 w ∨ rmatch icase st en r2 w.
Proof. inversion 1; subst; eauto. Qed.

Lemma rmatch_atom_inv st en k w :
  rmatch icase st en (Atom k) w →
  ∃ a, w = [a] ∧ classMatch icase k a = true.
Proof. inversion 1; subst; eauto. Qed.

Lemma rmatch_star_inv st en r w :
  rmatch icase st en (Star r) w →
  w = [] ∨
  ∃ a w1 w2, w = a :: w1 ++ w2 ∧
    rmatch icase st (en && isNil w2) r (a :: w1) ∧
    rmatch icase false en (Star r) w2.
Proof. inversion 1; subst; eauto 10. Qed.

Lemma nullable_spec st en r :
  nullable st en r = true ↔ rmatch icase st en r [].
Proof.
  revert st en. induction r; intros st en; simpl.
  - split; [constructor | done].
  - split; [done | inversion 1].
  - split; [done | inversion 1].
  - split; [intros ->; constructor | by inversion 1].
  - split; [intros ->; constructor | by inversion 1].
  - rewrite andb_true_iff, IHr1, IHr2. split.
    + intros [H1 H2]. apply (MCat icase st en r1 r2 [] []); simpl;
        by rewrite ?andb_true_r.
    + intros (w1 & w2 & E & H1 & H2)%rmatch_cat_inv.
      symmetry in E. apply app_eq_nil in E as [-> ->]. simpl in *.
      by rewrite !andb_true_r in *.
  - rewrite orb_true_iff, IHr1, IHr2. split.
    + intros [?|?]; [by apply MAltL | by apply MAltR].
    + apply rmatch_alt_inv.
  - split; [constructor | done].
Qed.

Lemma deriv_spec st en a r w :
  rmatch icase false en (deriv icase st a r) w ↔
  rmatch icase st en r (a :: w).
Proof.
  revert st en w. induction r; intros st en w; simpl.
  - split; inversion 1.
  - split; inversion 1.
  - destruct (classMatch icase k a) eqn:Hk.
    + split.
      * inversion 1; subst. by constructor.
      * intros (b & [= ? ?] & _)%rmatch_atom_inv. subst. constructor.
    + split; [inversion 1 |].
      intros (b & [= ? ?] & ?)%rmatch_atom_inv. subst. congruence.
  - split; inversion 1.
  - split; inversion 1.
  - split.
    + intros [HL | HR]%rmatch_alt_inv.
      * apply rmatch_cat_inv in HL as (w1 & w2 & -> & H1 & H2).
        apply IHr1 in H1. simpl in H2.
        apply (MCat icase st en r1 r2 (a :: w1) w2); simpl; [done |].
        by rewrite andb_false_r.
      * destruct (nullable st false r1) eqn:Hn; [| by inversion HR].
        apply nullable_spec in Hn. apply IHr2 in HR.
        apply (MCat icase st en r1 r2 [] (a :: w)); simpl;
          by rewrite ?andb_false_r, ?andb_true_r.
    + intros (w1 & w2 & E & H1 & H2)%rmatch_cat_inv.
      destruct w1 as [|b w1]; simpl in *.
      * subst w2. rewrite andb_false_r in H1. rewrite andb_true_r in H2.
        apply nullable_spec in H1. rewrite H1.
        apply MAltR. by apply IHr2.
      * injection E as ? ?. subst. rewrite andb_false_r in H2.
        apply MAltL. constructor; [by apply IHr1 | done].
  - split.
    + intros [HL | HR]%rmatch_alt_inv;
        [apply MAltL, IHr1, HL | apply MAltR, IHr2, HR].
    + intros [HL | HR]%rmatch_alt_inv;
        [apply MAltL, IHr1, HL | apply MAltR, IHr2, HR].
  - split.
    + intros (w1 & w2 & -> & H1 & H2)%rmatch_cat_inv.
      apply IHr in H1. simpl in H2. by constructor.
    + intros [? | (b & w1 & w2 & [= Ea Ew] & H1 & H2)]%rmatch_star_inv;
        [done |]. subst.
      constructor; [by apply IHr | done].
Qed.

Lemma matchFrom_spec st r w :
  matchFrom icase st r w = true ↔ rmatch icase st true r w.
Proof.
  revert st r. induction w as [|a w IH]; intros st r; simpl.
  - apply nullable_spec.
  - rewrite IH. apply deriv_spec.
Qed.

Lemma rmatch_anyStar st en w : rmatch icase st en anyStar w.
Proof.
  revert st. induction w as [|a w IH]; intros st; [constructor |].
  apply (MStarCons icase st en (Atom CAny) a [] w); [| apply IH].
  by constructor.
Qed.

(** [test] succeeds exactly when some piece of the input matches. *)
Lemma test_spec r w :
  test icase r w = true ↔
  ∃ pre mid post, w = pre ++ mid ++ post ∧
    rmatch icase (isNil pre) (isNil post) r mid.
Proof.
  unfold test. rewrite matchFrom_spec. split.
  - intros (pre & w2 & -> & _ & H2)%rmatch_cat_inv.
    apply rmatch_cat_inv in H2 as (mid & post & -> & H3 & _).
    exists pre, mid, post. split; [done |].
    by rewrite !andb_true_l in H3.
  - intros (pre & mid & post & -> & H).
    constructor; [apply rmatch_anyStar |].
    constructor; [by rewrite !andb_true_l | apply rmatch_anyStar].
Qed.

End MatchingFacts.

(** ** The routes, step by step *)

Section Routes.

Implicit Types (s : gmap N contact) (b : reqBody) (ev : env).
Implicit Types (id : list ascii).

Lemma falsy_true (v : option (list ascii)) :
  falsy v = true ↔ missingOrEmpty v.
Proof.
  unfold missingOrEmpty. destruct v as [[|a v]|]; simpl.
  - split; auto.
  - split; [done | intros [[=]|[=]]].
  - split; auto.
Qed.

Lemma hasAllFields_false b :
  hasAllFields b = false ↔
  missingOrEmpty (b_name b) ∨ missingOrEmpty (b_email b)
    ∨ missingOrEmpty (b_phone b).
Proof.
  unfold hasAllFields.
  rewrite negb_false_iff, !orb_true_iff, !falsy_true. tauto.
Qed.

Lemma phoneTaken_true p self s :
  phoneTaken p self s = true ↔
  ∃ j d, s !! j = Some d ∧ phone d = p ∧ self ≠ Some j.
Proof.
  unfold phoneTaken. rewrite existsb_exists. split.
  - intros ([j d] & Hin & Hb). apply andb_true_iff in Hb as [H1 H2].
    apply bool_decide_eq_true in H1. apply negb_true_iff in H2.
    apply bool_decide_eq_false in H2.
    exists j, d. split; [| done].
    by apply elem_of_map_to_list, list_elem_of_In.
  - intros (j & d & Hs & Hp & Hne). exists (j, d). split.
    + by apply list_elem_of_In, elem_of_map_to_list.
    + simpl. apply andb_true_iff. split.
      * by apply bool_decide_eq_true.
      * by apply negb_true_iff, bool_decide_eq_false.
Qed.

Lemma phoneTaken_false p self s :
  phoneTaken p self s = false ↔
  ∀ j d, s !! j = Some d → phone d = p → self = Some j.
Proof.
  rewrite <- not_true_iff_false, phoneTaken_true. split.
  - intros Hn j d Hs Hp. destruct (decide (self = Some j)); [done |].
    exfalso. apply Hn. eauto.
  - intros H (j & d & Hs & Hp & Hne). by apply Hne, (H j d).
Qed.

(** The create route below its presence check. *)
Lemma post_present ev b s :
  hasAllFields b = true →
  post_api_contacts ev b s =
    let n := Schema.setName (field (b_name b)) in
    let e := Schema.setEmail (field (b_email b)) in
    let p := Schema.setPhone (field (b_phone b)) in
    let doc := mkContact (newObjectId ev) n e p (now ev) (now ev) in
    if passesValidation b then
      if bool_decide (is_Some (s !! newObjectId ev)) || phoneTaken p None s
      then (s, Response 409
                 (JMessage (str "This phone number is already registered.")))
      else (<[newObjectId ev := doc]> s, Response 201 (JContact doc))
    else (s, Response 400
               (JMessage (Schema.message "Contact validation failed"
                            (Schema.errors n e p)))).
Proof.
  unfold hasAllFields, post_api_contacts, passesValidation, Contact.save.
  intros ->%negb_true_iff. cbv zeta.
  destruct (Schema.errors _ _ _) as [|m ms]; simpl isNil; cbv iota.
  - cbn [_id]. by destruct (_ || _).
  - done.
Qed.

Lemma updateErrors_nil n e p :
  isNil (Schema.updateErrors n e p) = isNil (Schema.errors n e p).
Proof.
  unfold Schema.updateErrors, Schema.errors.
  by destruct (Schema.validateName n), (Schema.validateEmail e),
    (Schema.validatePhone p).
Qed.

(** The update route below its presence check. *)
Lemma put_present ev id b s :
  hasAllFields b = true →
  put_api_contacts_id ev id b s =
    let n := Schema.setName (field (b_name b)) in
    let e := Schema.setEmail (field (b_email b)) in
    let p := Schema.setPhone (field (b_phone b)) in
    match castObjectId id with
    | None => (s, Response 500 (JError (str "Error updating contact")
                                       (CastError id)))
    | Some i =>
        if passesValidation b then
          match s !! i with
          | None => (s, Response 404 (JMessage (str "Contact not found")))
          | Some old =>
              let doc := mkContact (_id old) n e p (createdAt old) (now ev) in
              if phoneTaken p (Some i) s
              then (s, Response 409
                     (JMessage
                        (str "This phone number is already registered.")))
              else (<[i := doc]> s, Response 200 (JContact doc))
          end
        else (s, Response 400
                   (JMessage (Schema.message "Validation failed"
                                (Schema.updateErrors n e p))))
    end.
Proof.
  unfold hasAllFields, put_api_contacts_id, passesValidation,
    Contact.findByIdAndUpdate.
  intros ->%negb_true_iff. cbv zeta.
  destruct (castObjectId id) as [i|]; [| done].
  rewrite <- updateErrors_nil.
  destruct (Schema.updateErrors _ _ _) as [|m ms]; simpl isNil; cbv iota.
  - destruct (s !! i) as [old|]; [| done]. by destruct (phoneTaken _ _ _).
  - done.
Qed.

Lemma post_absent ev b s :
  hasAllFields b = false →
  post_api_contacts ev b s =
    (s, Response 400
          (JMessage (str "Name, email, and phone fields are required."))).
Proof.
  unfold hasAllFields, post_api_contacts. by intros ->%negb_false_iff.
Qed.

Lemma put_absent ev id b s :
  hasAllFields b = false →
  put_api_contacts_id ev id b s =
    (s, Response 400 (JMessage (str "Name, email, and phone are required."))).
Proof.
  unfold hasAllFields, put_api_contacts_id. by intros ->%negb_false_iff.
Qed.

Lemma delete_cases id s :
  delete_api_contacts_id id s =
    match castObjectId id with
    | None => (s, Response 500 (JError (str "Error deleting contact")
                                       (CastError id)))
    | Some i =>
        match s !! i with
        | None => (s, Response 404 (JMessage (str "Contact not found")))
        | Some _ =>
            (delete i s,
             Response 200 (JMessage (str "Contact deleted successfully")))
        end
    end.
Proof.
  unfold delete_api_contacts_id, Contact.findByIdAndDelete.
  destruct (castObjectId id) as [i|]; [| done].
  by destruct (s !! i).
Qed.

End Routes.

(** ** The unique index is an invariant *)

Section Invariant.

Implicit Types (s : gmap N contact) (b : reqBody) (ev : env).

Lemma uniquePhones_empty : uniquePhones ∅.
Proof. intros i j c d H. by rewrite lookup_empty in H. Qed.

Lemma uniquePhones_insert s i doc :
  uniquePhones s →
  (∀ j d, s !! j = Some d → phone d = phone doc → j = i) →
  uniquePhones (<[i := doc]> s).
Proof.
  intros Hu Hfree j k c d Hj Hk Hp.
  destruct (decide (j = i)) as [->|Hji], (decide (k = i)) as [->|Hki];
    [done | | |].
  - rewrite lookup_insert_eq in Hj. rewrite lookup_insert_ne in Hk by done.
    injection Hj as <-. symmetry. by apply (Hfree k d).
  - rewrite lookup_insert_eq in Hk. rewrite lookup_insert_ne in Hj by done.
    injection Hk as <-. by apply (Hfree j c).
  - rewrite lookup_insert_ne in Hj, Hk by done. by apply (Hu j k c d).
Qed.

Lemma uniquePhones_delete s i : uniquePhones s → uniquePhones (delete i s).
Proof.
  intros Hu j k c d Hj Hk Hp.
  apply lookup_delete_Some in Hj as [_ Hj], Hk as [_ Hk].
  by apply (Hu j k c d).
Qed.

Lemma post_uniquePhones ev b s :
  uniquePhones s → uniquePhones (post_api_contacts ev b s).1.
Proof.
  intros Hu. destruct (hasAllFields b) eqn:Hb;
    [| by rewrite post_absent].
  rewrite post_present by done. cbv zeta.
  destruct (passesValidation b); [| done].
  destruct (_ || _) eqn:Hdup; [done |]. simpl.
  apply orb_false_iff in Hdup as [_ Hfree].
  apply uniquePhones_insert; [done |]. simpl. intros j d Hj Hp.
  by pose proof (proj1 (phoneTaken_false _ _ _) Hfree j d Hj Hp).
Qed.

Lemma put_uniquePhones ev id b s :
  uniquePhones s → uniquePhones (put_api_contacts_id ev id b s).1.
Proof.
  intros Hu. destruct (hasAllFields b) eqn:Hb;
    [| by rewrite put_absent].
  rewrite put_present by done. cbv zeta.
  destruct (castObjectId id) as [i|]; [| done].
  destruct (passesValidation b); [| done].
  destruct (s !! i) as [old|]; [| done].
  destruct (phoneTaken _ _ _) eqn:Hfree; [done |]. simpl.
  apply uniquePhones_insert; [done |]. simpl. intros j d Hj Hp.
  pose proof (proj1 (phoneTaken_false _ _ _) Hfree j d Hj Hp) as Hi.
  by injection Hi.
Qed.

Lemma delete_uniquePhones id s :
  uniquePhones s → uniquePhones (delete_api_contacts_id id s).1.
Proof.
  intros Hu. rewrite delete_cases.
  destruct (castObjectId id) as [i|]; [| done].
  destruct (s !! i); [| done]. by apply uniquePhones_delete.
Qed.

Lemma handle_uniquePhones ev r s :
  uniquePhones s → uniquePhones (handle ev r s).
Proof.
  destruct r; simpl;
    auto using post_uniquePhones, put_uniquePhones, delete_uniquePhones.
Qed.

End Invariant.

(** ** Characters and strings *)

Ltac each_char a :=
  destruct a as [[] [] [] [] [] [] [] []]; vm_compute; try done.

Lemma toLower_isWhiteSpace a :
  Char.isWhiteSpace (Char.toLower a) = Char.isWhiteSpace a.
Proof. each_char a. Qed.

Lemma toLower_isLineTerminator a :
  Char.isLineTerminator (Char.toLower a) = Char.isLineTerminator a.
Proof. each_char a. Qed.

Lemma toLower_at a : Char.toLower a = "@"%char ↔ a = "@"%char.
Proof. each_char a. Qed.

Lemma toLower_dot a : Char.toLower a = "."%char ↔ a = "."%char.
Proof. each_char a. Qed.


Lemma classify_plain c : isSyntaxCharacter c = false → classify c = TChar.
Proof. each_char c. Qed.

Lemma trimStart_toLowerCase s :
  trimStart (toLowerCase s) = toLowerCase (trimStart s).
Proof.
  induction s as [|a s IH]; [done |]. simpl.
  rewrite toLower_isWhiteSpace. by destruct (Char.isWhiteSpace a).
Qed.

Lemma reverse_toLowerCase s :
  reverse (toLowerCase s) = toLowerCase (reverse s).
Proof. unfold toLowerCase. by rewrite fmap_reverse. Qed.

Lemma trim_toLowerCase s : trim (toLowerCase s) = toLowerCase (trim s).
Proof.
  unfold trim, trimEnd.
  by rewrite trimStart_toLowerCase, reverse_toLowerCase,
    trimStart_toLowerCase, reverse_toLowerCase.
Qed.

Lemma toLowerCase_nil_inv s : toLowerCase s = [] → s = [].
Proof. apply fmap_nil_inv. Qed.

Lemma noLineTerminator_toLowerCase s :
  noLineTerminator (toLowerCase s) ↔ noLineTerminator s.
Proof.
  unfold noLineTerminator, toLowerCase. rewrite Forall_fmap.
  apply Forall_iff. intros a. simpl. by rewrite toLower_isLineTerminator.
Qed.

(** ** Searching for plain text *)

Lemma parseLoop_plain sub : ∀ f stack,
  plainText sub →
  parseLoop f stack sub =
    parseLoop (Frame (alts f)
                 (reverse ((λ c, Atom (CChar c)) <$> sub) ++ terms f)
                 (if isNil sub then lastTerm f else CanRepeat))
              stack [].
Proof.
  induction sub as [|c sub IH]; intros f stack Hp.
  - by destruct f.
  - apply Forall_cons in Hp as [Hc Hp].
    cbn [parseLoop]. rewrite (classify_plain c Hc), (IH _ _ Hp).
    cbn [pushAtom alts terms lastTerm fmap list_fmap isNil].
    rewrite reverse_cons, <- app_assoc. simpl. by destruct sub.
Qed.

Lemma parseRegExp_plain sub :
  plainText sub → parseRegExp sub = Parsed (literal sub).
Proof.
  intros Hp. unfold parseRegExp. rewrite parseLoop_plain by done.
  cbn [parseLoop disjunction alts terms emptyFrame fold_left].
  unfold alternative, literal.
  by rewrite app_nil_r, reverse_involutive.
Qed.

Lemma rmatch_literal icase sub : ∀ st en w,
  rmatch icase st en (literal sub) w ↔
  Forall2 (λ c a, classMatch icase (CChar c) a = true) sub w.
Proof.
  induction sub as [|c sub IH]; intros st en w.
  - split.
    + inversion 1; subst. constructor.
    + intros ->%Forall2_nil_inv_l. constructor.
  - change (literal (c :: sub)) with (Cat (Atom (CChar c)) (literal sub)).
    split.
    + intros (w1 & w2 & -> & H1 & H2)%rmatch_cat_inv.
      apply rmatch_atom_inv in H1 as (a & -> & Ha).
      constructor; [done | by apply IH in H2].
    + intros (a & w' & Ha & Hw & ->)%Forall2_cons_inv_l.
      apply (MCat icase st en _ _ [a] w'); [by constructor |].
      by apply IH.
Qed.

Lemma rmatch_literal_icase sub st en w :
  rmatch true st en (literal sub) w ↔ toLowerCase w = toLowerCase sub.
Proof.
  rewrite rmatch_literal. unfold toLowerCase.
  rewrite list_eq_Forall2, Forall2_fmap. split.
  - intros H. apply Forall2_flip. eapply Forall2_impl; [exact H |].
    simpl. by intros c a ?%bool_decide_eq_true.
  - intros H. apply Forall2_flip in H. eapply Forall2_impl; [exact H |].
    simpl. intros c a Hca. by apply bool_decide_eq_true.
Qed.

Lemma test_literal sub v :
  test true (literal sub) v = true ↔ containsCI v sub.
Proof.
  rewrite test_spec. unfold containsCI. split.
  - intros (pre & mid & post & -> & H%rmatch_literal_icase).
    exists (toLowerCase pre), (toLowerCase post).
    unfold toLowerCase in *. by rewrite !fmap_app, H.
  - intros (pre' & post' & H). unfold toLowerCase in H.
    apply fmap_app_inv in H as (pre & rest & -> & H & ->).
    symmetry in H. apply fmap_app_inv in H as (mid & post & Hm & -> & ->).
    exists pre, mid, post. split; [done |].
    by apply rmatch_literal_icase.
Qed.

(** The pattern compiler and the matcher on a few searches. *)

Example parse_group_star :
  parseRegExp (str "(?:ab)*c") =
    Parsed (Cat (Star (Cat (Atom (CChar "a")) (Cat (Atom (CChar "b")) Eps)))
              (Cat (Atom (CChar "c")) Eps)).
Proof. reflexivity. Qed.

Example parse_nothing_to_repeat : parseRegExp (str "C++") = SyntaxError.
Proof. reflexivity. Qed.

Example parse_unterminated_group : parseRegExp (str "(bob") = SyntaxError.
Proof. reflexivity. Qed.

Example parse_class_unsupported : parseRegExp (str "[a-z]") = Unsupported.
Proof. reflexivity. Qed.

Example test_anchored_alternatives :
  match parseRegExp (str "^b|ce") with
  | Parsed re =>
      (test true re (str "Bob"), test true re (str "Alice"),
       test true re (str "abc"))
  | _ => (false, false, false)
  end = (true, true, false).
Proof. vm_compute. reflexivity. Qed.

Example test_phone_examples :
  (test false phonePattern (str "5551234567"),
   test false phonePattern (str "12345"),
   test false phonePattern (str "55512345678"),
   test false phonePattern (str "555123456x")) = (true, false, false, false).
Proof. vm_compute. reflexivity. Qed.

(** ** The list route *)

Lemma elem_of_find db query (s : gmap N contact) c :
  c ∈ Contact.find db query s ↔
  (∃ i, s !! i = Some c) ∧
  match query with
  | None => True
  | Some matches => matches (name c) = true
  end.
Proof.
  unfold Contact.find. rewrite merge_sort_Permutation.
  rewrite list_elem_of_In, filter_In, <- list_elem_of_In, list_elem_of_fmap.
  split.
  - intros [([i c'] & -> & Hin%elem_of_map_to_list) Hsel].
    split; [by exists i |]. by destruct query.
  - intros [[i Hi] Hsel]. split.
    + exists (i, c). split; [done | by apply elem_of_map_to_list].
    + by destruct query.
Qed.

Lemma find_all_Permutation db (s : gmap N contact) :
  Contact.find db None s ≡ₚ (map_to_list s).*2.
Proof.
  unfold Contact.find. rewrite merge_sort_Permutation.
  induction ((map_to_list s).*2) as [|c l IH]; [done |].
  simpl. by rewrite IH.
Qed.

Lemma lexLe_total k1 : ∀ k2, lexLe k1 k2 = true ∨ lexLe k2 k1 = true.
Proof.
  induction k1 as [|x k1 IH]; intros [|y k2]; simpl; auto.
  destruct (N.ltb_spec x y), (N.ltb_spec y x), (N.eqb_spec x y),
    (N.eqb_spec y x); simpl; auto; try lia.
Qed.

Lemma lexLe_trans k1 : ∀ k2 k3,
  lexLe k1 k2 = true → lexLe k2 k3 = true → lexLe k1 k3 = true.
Proof.
  induction k1 as [|x k1 IH]; intros [|y k2] [|z k3]; simpl; auto; try done.
  destruct (N.ltb_spec x y), (N.ltb_spec y z), (N.ltb_spec x z),
    (N.eqb_spec x y), (N.eqb_spec y z), (N.eqb_spec x z);
    simpl; auto; try lia; try done.
  apply IH.
Qed.

Global Instance nameLe_total db : Total (nameLe db).
Proof. intros c d. apply lexLe_total. Qed.

Global Instance nameLe_trans db : Transitive (nameLe db).
Proof. intros c d e. apply lexLe_trans. Qed.



Lemma find_submseteq db query (s : gmap N contact) :
  Contact.find db query s ⊆+ (map_to_list s).*2.
Proof.
  unfold Contact.find. rewrite merge_sort_Permutation.
  apply sublist_submseteq.
  induction ((map_to_list s).*2) as [|c l IH]; [done |].
  simpl. destruct (match query with None => _ | Some _ => _ end);
    by constructor.
Qed.


Lemma noNul_existsb sub : noNul sub → existsb Char.isNul sub = false.
Proof.
  induction 1 as [|a sub Ha _ IH]; [done |]. simpl. by rewrite Ha, IH.
Qed.

(** A search whose string compiles and holds no NUL lists exactly the
    stored contacts a piece of whose name matches the pattern, letter case
    apart. *)
Lemma search_by_pattern db sub re (s : gmap N contact) :
  falsy (Some sub) = false → parseRegExp sub = Parsed re → noNul sub →
  get_api_contacts db (Some sub) s =
    Response 200 (JContacts (Contact.find db (Some (test true re)) s))
  ∧ ∀ c, c ∈ listed (get_api_contacts db (Some sub) s) ↔
      (∃ i, s !! i = Some c) ∧
      ∃ pre mid post, name c = pre ++ mid ++ post ∧
        rmatch true (isNil pre) (isNil post) re mid.
Proof.
  intros Hf Hre Hz. unfold get_api_contacts. rewrite Hf.
  change (field (Some sub)) with sub. rewrite Hre, noNul_existsb by done.
  split; [done |]. intros c. cbn [listed].
  by rewrite elem_of_find, test_spec.
Qed.

(** A search whose string does not compile is answered 500. *)
Lemma search_syntax_error db sub (s : gmap N contact) :
  falsy (Some sub) = false → parseRegExp sub = SyntaxError →
  get_api_contacts db (Some sub) s =
    Response 500 (JError (str "Error fetching contacts")
                         (RegExpSyntaxError sub)).
Proof.
  intros Hf Hre. unfold get_api_contacts. rewrite Hf.
  change (field (Some sub)) with sub. by rewrite Hre.
Qed.

(** ** The collation on ASCII names *)















(** The collation on a few names: a name comes after its proper prefixes,
    and letter case does not count. *)
Example collation_examples db :
  (collationLe db (str "Al") (str "Alice")
   ∧ ¬ collationLe db (str "Alice") (str "Al"))
  ∧ (collationLe db (str "bob") (str "bobby")
     ∧ ¬ collationLe db (str "bobby") (str "bob"))
  ∧ (collationLe db (str "alice") (str "Bob")
     ∧ ¬ collationLe db (str "Bob") (str "alice"))
  ∧ (collationLe db (str "BOB") (str "bob")
     ∧ collationLe db (str "bob") (str "BOB")).
Proof.
  unfold collationLe.
  repeat split; try (vm_compute; reflexivity);
    intros H; vm_compute in H; discriminate H.
Qed.

(** ** The email pattern *)

Lemma rmatch_star_atom icase k : ∀ st en w,
  rmatch icase st en (Star (Atom k)) w ↔
  Forall (λ a, classMatch icase k a = true) w.
Proof.
  intros st en w. revert st en.
  induction w as [|a w IH]; intros st en.
  - split; constructor.
  - split.
    + intros [[=] | (a' & w1 & w2 & [= Ea Ew] & H1 & H2)]%rmatch_star_inv.
      subst a'. apply rmatch_atom_inv in H1 as (a' & [= Ea Ew'] & Hk).
      subst. constructor; [done |]. by apply IH in H2.
    + intros [Ha Hw]%Forall_cons.
      apply (MStarCons icase st en (Atom k) a [] w); [by constructor |].
      by apply IH.
Qed.

Lemma rmatch_plus_atom icase k st en w :
  rmatch icase st en (Plus (Atom k)) w ↔
  w ≠ [] ∧ Forall (λ a, classMatch icase k a = true) w.
Proof.
  unfold Plus. split.
  - intros (w1 & w2 & -> & H1 & H2)%rmatch_cat_inv.
    apply rmatch_atom_inv in H1 as (a & -> & Hk).
    apply rmatch_star_atom in H2. split; [done |]. by constructor.
  - intros [Hne Hw]. destruct w as [|a w]; [done |].
    apply Forall_cons in Hw as [Ha Hw].
    apply (MCat icase st en _ _ [a] w); [by constructor |].
    by apply rmatch_star_atom.
Qed.

Lemma rmatch_char st en c w :
  rmatch false st en (Atom (CChar c)) w ↔ w = [c].
Proof.
  split.
  - intros (a & -> & Ha)%rmatch_atom_inv. simpl in Ha.
    by apply bool_decide_eq_true in Ha as ->.
  - intros ->. constructor. simpl. by apply bool_decide_eq_true.
Qed.

Lemma dots_noLineTerminator w :
  Forall (λ a, classMatch false CDot a = true) w ↔ noLineTerminator w.
Proof.
  apply Forall_iff. intros a. simpl. apply negb_true_iff.
Qed.

Lemma rmatch_emailPattern st en w :
  rmatch false st en emailPattern w ↔
  ∃ X Y Z, w = X ++ "@"%char :: Y ++ "."%char :: Z ∧
    X ≠ [] ∧ Y ≠ [] ∧ Z ≠ [] ∧
    noLineTerminator X ∧ noLineTerminator Y ∧ noLineTerminator Z.
Proof.
  unfold emailPattern. split.
  - intros (X & w1 & -> & HX & H1)%rmatch_cat_inv.
    apply rmatch_cat_inv in H1 as (at_ & w2 & -> & Hat & H2).
    apply rmatch_cat_inv in H2 as (Y & w3 & -> & HY & H3).
    apply rmatch_cat_inv in H3 as (dot & Z & -> & Hdot & HZ).
    apply rmatch_char in Hat as ->. apply rmatch_char in Hdot as ->.
    apply rmatch_plus_atom in HX as [? ?%dots_noLineTerminator].
    apply rmatch_plus_atom in HY as [? ?%dots_noLineTerminator].
    apply rmatch_plus_atom in HZ as [? ?%dots_noLineTerminator].
    by exists X, Y, Z.
  - intros (X & Y & Z & -> & ? & ? & ? & HX & HY & HZ).
    constructor; [by apply rmatch_plus_atom, conj, dots_noLineTerminator |].
    apply (MCat false _ _ _ _ ["@"%char]); [by apply rmatch_char |].
    constructor; [by apply rmatch_plus_atom, conj, dots_noLineTerminator |].
    apply (MCat false _ _ _ _ ["."%char]); [by apply rmatch_char |].
    by apply rmatch_plus_atom, conj, dots_noLineTerminator.
Qed.

Lemma test_emailPattern v :
  test false emailPattern v = true ↔ emailShaped v.
Proof.
  rewrite test_spec. unfold emailShaped. split.
  - intros (pre & mid & post & -> & H%rmatch_emailPattern).
    destruct H as (X & Y & Z & -> & H). by exists pre, X, Y, Z, post.
  - intros (pre & X & Y & Z & post & -> & H).
    exists pre, (X ++ "@"%char :: Y ++ "."%char :: Z), post.
    split; [done |]. apply rmatch_emailPattern. by exists X, Y, Z.
Qed.

Lemma emailShaped_toLowerCase v :
  emailShaped (toLowerCase v) ↔ emailShaped v.
Proof.
  unfold emailShaped. split.
  - intros (pre' & X' & Y' & Z' & post' & H & HX & HY & HZ & HlX & HlY & HlZ).
    unfold toLowerCase in H.
    apply fmap_app_inv in H as (pre & r1 & -> & H & ->). symmetry in H.
    apply fmap_app_inv in H as (mid & post & H & -> & ->). symmetry in H.
    apply fmap_app_inv in H as (X & r2 & -> & H & ->). symmetry in H.
    apply fmap_cons_inv in H as (a & r3 & Ha & H & ->). symmetry in H.
    apply fmap_app_inv in H as (Y & r4 & -> & H & ->). symmetry in H.
    apply fmap_cons_inv in H as (d & Z & Hd & -> & ->).
    symmetry in Ha, Hd. apply toLower_at in Ha as ->.
    apply toLower_dot in Hd as ->.
    exists pre, X, Y, Z, post. split; [done |].
    fold (toLowerCase X) in *. fold (toLowerCase Y) in *.
    fold (toLowerCase Z) in *.
    rewrite noLineTerminator_toLowerCase in HlX, HlY, HlZ.
    repeat split; try done; by intros ->.
  - intros (pre & X & Y & Z & post & -> & HX & HY & HZ & HlX & HlY & HlZ).
    exists (toLowerCase pre), (toLowerCase X), (toLowerCase Y),
      (toLowerCase Z), (toLowerCase post).
    rewrite !noLineTerminator_toLowerCase.
    split; [by unfold toLowerCase; rewrite !fmap_app, !fmap_cons, !fmap_app,
              !fmap_cons |].
    repeat split; try done; by intros ?%toLowerCase_nil_inv.
Qed.

Lemma trimStart_suffix s : trimStart s `suffix_of` s.
Proof.
  induction s as [|a s IH]; [done |]. simpl.
  destruct (Char.isWhiteSpace a); [by apply suffix_cons_r | done].
Qed.

Lemma noLineTerminator_trim s : noLineTerminator s → noLineTerminator (trim s).
Proof.
  unfold noLineTerminator, trim, trimEnd. intros H.
  apply Forall_reverse.
  destruct (trimStart_suffix (reverse (trimStart s))) as [k1 E1].
  destruct (trimStart_suffix s) as [k2 E2].
  rewrite E2 in H. apply Forall_app in H as [_ H].
  apply Forall_reverse in H. rewrite E1 in H.
  by apply Forall_app in H as [_ H].
Qed.

Lemma emailShaped_fullShape v :
  noLineTerminator v → emailShaped v ↔ fullShape v.
Proof.
  intros Hv. unfold emailShaped, fullShape. split.
  - intros (pre & X & Y & Z & post & -> & HX & HY & HZ & _).
    exists (pre ++ X), Y, (Z ++ post).
    split; [by rewrite <- !app_assoc; simpl; rewrite <- !app_assoc |].
    split; [by intros [_ ?]%app_eq_nil |].
    split; [done | by intros [? _]%app_eq_nil].
  - intros (X & Y & Z & -> & HX & HY & HZ).
    exists [], X, Y, Z, []. split; [by rewrite app_nil_r |].
    unfold noLineTerminator in Hv.
    apply Forall_app in Hv as [HlX Hv].
    apply Forall_cons in Hv as [_ Hv].
    apply Forall_app in Hv as [HlY Hv].
    apply Forall_cons in Hv as [_ HlZ]. done.
Qed.

Lemma isNil_true {A} (w : list A) : isNil w = true ↔ w = [].
Proof. by destruct w. Qed.

Lemma validateEmail_setEmail e :
  Schema.validateEmail (Schema.setEmail e) = None ↔
  trim e ≠ [] ∧ emailShaped (trim e).
Proof.
  unfold Schema.validateEmail, Schema.setEmail.
  rewrite trim_toLowerCase.
  destruct (isNil (toLowerCase (trim e))) eqn:Hn.
  - apply isNil_true, toLowerCase_nil_inv in Hn. split; [done | tauto].
  - assert (trim e ≠ []) as Hne by (by intros Hc; rewrite Hc in Hn).
    destruct (test false emailPattern _) eqn:Ht.
    + apply (proj1 (test_emailPattern _)) in Ht.
      apply (proj1 (emailShaped_toLowerCase _)) in Ht.
      split; [intros _; by split | done].
    + split; [done |]. intros [_ Hs].
      apply (proj2 (emailShaped_toLowerCase _)) in Hs.
      apply (proj2 (test_emailPattern _)) in Hs. congruence.
Qed.

Lemma passesValidation_true b :
  passesValidation b = true ↔
  Schema.validateName (Schema.setName (field (b_name b))) = None ∧
  Schema.validateEmail (Schema.setEmail (field (b_email b))) = None ∧
  Schema.validatePhone (Schema.setPhone (field (b_phone b))) = None.
Proof.
  unfold passesValidation, Schema.errors.
  destruct (Schema.validateName _), (Schema.validateEmail _),
    (Schema.validatePhone _); simpl; split; try done; by intros (? & ? & ?).
Qed.

Lemma post_status_400 ev b (s : gmap N contact) :
  hasAllFields b = true →
  status (post_api_contacts ev b s).2 = 400 ↔ passesValidation b = false.
Proof.
  intros Hb. rewrite post_present by done. cbv zeta.
  destruct (passesValidation b); [| done].
  by destruct (_ || _).
Qed.

Lemma put_status_400 ev id i b (s : gmap N contact) :
  hasAllFields b = true → castObjectId id = Some i →
  status (put_api_contacts_id ev id b s).2 = 400 ↔ passesValidation b = false.
Proof.
  intros Hb Hid. rewrite put_present by done. cbv zeta. rewrite Hid.
  destruct (passesValidation b); [| done].
  destruct (s !! i); [| done]. by destruct (phoneTaken _ _ _).
Qed.

(** ** The phone pattern *)

Lemma rmatch_bol_inv icase st en w :
  rmatch icase st en Bol w → w = [] ∧ st = true.
Proof. by inversion 1. Qed.

Lemma rmatch_eol_inv icase st en w :
  rmatch icase st en Eol w → w = [] ∧ en = true.
Proof. by inversion 1. Qed.

Lemma rmatch_repeat_atom icase k n : ∀ st en w,
  rmatch icase st en (Repeat n (Atom k)) w ↔
  length w = n ∧ Forall (λ a, classMatch icase k a = true) w.
Proof.
  induction n as [|n IH]; intros st en w; simpl.
  - split.
    + inversion 1; subst. by split.
    + intros [->%nil_length_inv _]. constructor.
  - split.
    + intros (w1 & w2 & -> & H1 & H2)%rmatch_cat_inv.
      apply rmatch_atom_inv in H1 as (a & -> & Ha).
      apply IH in H2 as [<- Hw]. split; [done | by constructor].
    + intros [Hl Hw]. destruct w as [|a w]; [done |].
      apply Forall_cons in Hw as [Ha Hw]. injection Hl as Hl.
      apply (MCat icase st en _ _ [a] w); [by constructor |].
      by apply IH.
Qed.

Lemma test_phonePattern v :
  test false phonePattern v = true ↔
  length v = 10%nat ∧ Forall (λ a, Char.isDigit a = true) v.
Proof.
  rewrite test_spec. unfold phonePattern. split.
  - intros (pre & mid & post & -> & H).
    apply rmatch_cat_inv in H as (w1 & w2 & -> & H1 & H2).
    apply rmatch_bol_inv in H1 as [-> Hpre%isNil_true].
    apply rmatch_cat_inv in H2 as (d & w3 & -> & Hd & H3).
    apply rmatch_eol_inv in H3 as [-> Hpost%isNil_true].
    apply rmatch_repeat_atom in Hd. subst pre post.
    by rewrite !app_nil_r.
  - intros Hv. exists [], v, []. split; [by rewrite app_nil_r |].
    apply (MCat false _ _ _ _ [] v); [constructor |].
    rewrite <- (app_nil_r v) at 1.
    apply (MCat false _ _ _ _ v []); [| constructor].
    by apply rmatch_repeat_atom.
Qed.

(** The phone validator accepts exactly the strings of ten decimal
    digits. *)
Lemma validatePhone_spec v :
  Schema.validatePhone v = None ↔
  length v = 10%nat ∧ Forall (λ a, Char.isDigit a = true) v.
Proof.
  unfold Schema.validatePhone. destruct v as [|a v].
  - split; [done | by intros [[=] _]].
  - cbn [isNil]. rewrite <- test_phonePattern.
    by destruct (test false phonePattern (a :: v)).
Qed.

(** ** The routes on a few requests *)

(** NO-BREAK SPACE is white space to [trim], and [toLowerCase] reaches the
    capitals above U+007F. *)
Example trim_no_break_space :
  trim (ascii_of_N 160 :: str "5551234567") = str "5551234567"
  ∧ trim (str "a@b." ++ [ascii_of_N 160]) = str "a@b."
  ∧ trim [ascii_of_N 160] = [].
Proof. by vm_compute. Qed.

Example setEmail_capital_e_acute :
  Schema.setEmail (ascii_of_N 201 :: str "MILE@EXAMPLE.COM") =
    ascii_of_N 233 :: str "mile@example.com".
Proof. vm_compute. reflexivity. Qed.

Example create_email_ending_in_no_break_space :
  post_api_contacts (Env 10 1)
    (ReqBody (Some (str "Ann")) (Some (str "a@b." ++ [ascii_of_N 160]))
             (Some (str "5550000009"))) ∅ =
    (∅, Response 400
          (JMessage (str "Contact validation failed: email: Please enter a valid email address."))).
Proof. vm_compute. reflexivity. Qed.

Example create_phone_after_no_break_space :
  post_api_contacts (Env 10 1)
    (ReqBody (Some (str "Ann")) (Some (str "ann@example.com"))
             (Some (ascii_of_N 160 :: str "5551234567"))) ∅ =
    ({[ 1 := mkContact 1 (str "Ann") (str "ann@example.com")
                (str "5551234567") 10 10 ]},
     Response 201
       (JContact (mkContact 1 (str "Ann") (str "ann@example.com")
                    (str "5551234567") 10 10))).
Proof. vm_compute. reflexivity. Qed.

Example create_name_of_no_break_space :
  post_api_contacts (Env 10 1)
    (ReqBody (Some [ascii_of_N 160]) (Some (str "ann@example.com"))
             (Some (str "5550000009"))) ∅ =
    (∅, Response 400
          (JMessage (str "Contact validation failed: name: Name is required."))).
Proof. vm_compute. reflexivity. Qed.

(** The update validators report the paths last first. *)
Example update_reports_phone_first :
  put_api_contacts_id (Env 50 9) idOne (jsonBody " " "ann" "12") oneContact =
    (oneContact,
     Response 400
       (JMessage (str "Validation failed: phone: 12 is not a valid 10-digit phone number!, email: Please enter a valid email address., name: Name is required."))).
Proof. vm_compute. reflexivity. Qed.

Example create_reports_name_first :
  post_api_contacts (Env 50 9) (jsonBody " " "ann" "12") oneContact =
    (oneContact,
     Response 400
       (JMessage (str "Contact validation failed: name: Name is required., email: Please enter a valid email address., phone: 12 is not a valid 10-digit phone number!"))).
Proof. vm_compute. reflexivity. Qed.

(** A pattern that holds a NUL compiles, but the query cannot be sent. *)
Example search_with_nul db :
  get_api_contacts db (Some (str "bob" ++ [ascii_of_N 0])) oneContact =
    Response 500 (JError (str "Error fetching contacts")
                         (BSONError (str "bob" ++ [ascii_of_N 0]))).
Proof. vm_compute. reflexivity. Qed.

(** Brackets, braces and [$] are the database's to interpret. *)
Example search_left_to_the_database db :
  get_api_contacts db (Some (str "bob$")) oneContact =
    match beyondGrammar db (str "bob$") with
    | Refused err => Response 500 (JError (str "Error fetching contacts") err)
    | Selects matches =>
        Response 200 (JContacts (Contact.find db (Some matches) oneContact))
    end.
Proof. reflexivity. Qed.

(* ================================================================== *)
(** * The claims *)

(** C1, as stated, fails: the search string is compiled as a regular
    expression, so [.] selects Bob Smith, whose name has no dot, and [C++]
    is no pattern at all and is answered 500.  Neither search is left to
    the database to interpret. *)
Lemma search_dot_selects_bob :
  get_api_contacts sampleDatabase (Some (str ".")) oneContact =
    Response 200
      (JContacts
         [mkContact 1 (str "Bob Smith") (str "bob@example.com")
            (str "5551234567") 10 10])
  ∧ ¬ containsCI (str "Bob Smith") (str ".")
  ∧ get_api_contacts sampleDatabase (Some (str "C++")) oneContact =
      Response 500 (JError (str "Error fetching contacts")
                           (RegExpSyntaxError (str "C++"))).
Proof.
  split; [vm_compute; reflexivity |]. split; [| vm_compute; reflexivity].
  intros (pre & post & H).
  assert ("."%char ∈ toLowerCase (str "Bob Smith")) as Hin.
  { rewrite H. apply elem_of_app. right. left. }
  revert Hin.
  apply (bool_decide_eq_false_1 ("."%char ∈ toLowerCase (str "Bob Smith"))).
  by vm_compute.
Qed.

(** C1, amended. When the search string holds no syntax character of the
    pattern grammar ([^ $ \ . * + ? ( ) [ ] { } |]) and no NUL, the route
    answers 200 and the list holds exactly the stored contacts whose name
    contains the string, letter case apart; when the search is absent (or
    empty) the list holds all stored contacts.  A stored contact is listed
    at most as often as it is stored.  Names and search strings are strings
    of characters below U+0100. *)
Theorem search_plain_text (db : database) (sub : list ascii)
    (s : gmap N contact) :
  plainText sub → noNul sub →
  (∃ l, get_api_contacts db (Some sub) s = Response 200 (JContacts l) ∧
        l ⊆+ (map_to_list s).*2 ∧
        ∀ c, c ∈ l ↔ (∃ i, s !! i = Some c) ∧ containsCI (name c) sub)
  ∧ (∃ l, get_api_contacts db None s = Response 200 (JContacts l) ∧
          l ⊆+ (map_to_list s).*2 ∧
          ∀ c, c ∈ l ↔ ∃ i, s !! i = Some c).
Proof.
  intros Hp Hz. split.
  - unfold get_api_contacts. destruct sub as [|a sub].
    + simpl. eexists. split; [done |]. split; [apply find_submseteq |].
      intros c. rewrite elem_of_find. split; [| tauto].
      intros [Hc _]. split; [done |]. by exists [], (toLowerCase (name c)).
    + cbn [falsy]. change (field (Some (a :: sub))) with (a :: sub).
      rewrite parseRegExp_plain, noNul_existsb by done.
      eexists. split; [done |]. split; [apply find_submseteq |].
      intros c. rewrite elem_of_find. by rewrite test_literal.
  - eexists. split; [done |]. split; [apply find_submseteq |].
    intros c. rewrite elem_of_find. tauto.
Qed.

Lemma search_plain_text_witness :
  plainText (str "bob") ∧ noNul (str "bob")
  ∧ get_api_contacts sampleDatabase (Some (str "bob")) twoContacts =
      Response 200
        (JContacts
           [mkContact 1 (str "Bob Smith") (str "bob@example.com")
              (str "5551234567") 10 10;
            mkContact 2 (str "bobby") (str "bobby@example.com")
              (str "5550000000") 20 20])
  ∧ ∃ l, get_api_contacts sampleDatabase (Some (str "bob")) twoContacts =
           Response 200 (JContacts l) ∧
         l ⊆+ (map_to_list twoContacts).*2 ∧
         ∀ c, c ∈ l ↔
              (∃ i, twoContacts !! i = Some c)
              ∧ containsCI (name c) (str "bob").
Proof.
  assert (plainText (str "bob")) as H by (repeat constructor).
  assert (noNul (str "bob")) as Hz by (repeat constructor).
  split; [exact H |]. split; [exact Hz |].
  split; [vm_compute; reflexivity |].
  exact (proj1 (search_plain_text sampleDatabase (str "bob") twoContacts
                  H Hz)).
Defined.

(** C2, as stated, fails: the schema trims the three fields and lower-cases
    the email before storing, so an accepted input need not read back as
    it was sent. *)
Lemma create_stores_normalised_fields :
  post_api_contacts (Env 10 1)
    (jsonBody " Bob Smith " "Bob@Example.com" "5551234567") ∅ =
    ({[ 1 := mkContact 1 (str "Bob Smith") (str "bob@example.com")
                (str "5551234567") 10 10 ]},
     Response 201
       (JContact (mkContact 1 (str "Bob Smith") (str "bob@example.com")
                    (str "5551234567") 10 10)))
  ∧ str "Bob Smith" ≠ str " Bob Smith "
  ∧ str "bob@example.com" ≠ str "Bob@Example.com".
Proof. split; [by vm_compute | by split]. Qed.

(** C2, amended. For every input accepted by create, the contact read
    back (from the store under its id, from the 201 response, or from the
    list) has the input's name and phone with the surrounding white space
    removed, and the input's email lower-cased with the surrounding white
    space removed; it equals the input on these fields when the input is
    already in that form. *)
Theorem create_round_trip (db : database) (ev : env) (b : reqBody)
    (s : gmap N contact) :
  status (post_api_contacts ev b s).2 = 201 →
  ∃ c,
    post_api_contacts ev b s =
      (<[newObjectId ev := c]> s, Response 201 (JContact c)) ∧
    (post_api_contacts ev b s).1 !! newObjectId ev = Some c ∧
    c ∈ listed (get_api_contacts db None (post_api_contacts ev b s).1) ∧
    name c = trim (field (b_name b)) ∧
    email c = trim (toLowerCase (field (b_email b))) ∧
    phone c = trim (field (b_phone b)) ∧
    (trim (field (b_name b)) = field (b_name b) →
     trim (toLowerCase (field (b_email b))) = field (b_email b) →
     trim (field (b_phone b)) = field (b_phone b) →
     Some (name c) = b_name b ∧ Some (email c) = b_email b
       ∧ Some (phone c) = b_phone b).
Proof.
  destruct (hasAllFields b) eqn:Hb; [| by rewrite post_absent].
  rewrite post_present by done. cbv zeta.
  destruct (passesValidation b); [| done].
  destruct (_ || _); [done |]. intros _.
  eexists. split; [done |]. cbn [fst snd].
  split; [by rewrite lookup_insert_eq |].
  split; [| do 3 (split; [done |])].
  - cbn [get_api_contacts falsy listed]. apply elem_of_find.
    split; [| done]. exists (newObjectId ev). by rewrite lookup_insert_eq.
  - cbn [name email phone]. unfold Schema.setName, Schema.setEmail,
      Schema.setPhone. intros -> -> ->.
    unfold hasAllFields in Hb.
    by destruct b as [[[|??]|] [[|??]|] [[|??]|]].
Qed.

Lemma create_round_trip_witness :
  status (post_api_contacts (Env 20 2)
            (jsonBody "bobby " "Bobby@Example.COM" "5550000000")
            oneContact).2 = 201
  ∧ ∃ c,
      (post_api_contacts (Env 20 2)
         (jsonBody "bobby " "Bobby@Example.COM" "5550000000")
         oneContact).1 !! 2 = Some c ∧
      name c = str "bobby" ∧ email c = str "bobby@example.com" ∧
      phone c = str "5550000000".
Proof.
  assert (status (post_api_contacts (Env 20 2)
            (jsonBody "bobby " "Bobby@Example.COM" "5550000000")
            oneContact).2 = 201) as H by (vm_compute; reflexivity).
  split; [exact H |].
  destruct (create_round_trip sampleDatabase (Env 20 2) _ oneContact H)
    as (c & _ & Hc & _ & Hn & He & Hp & _).
  exists c. split; [exact Hc |].
  split; [exact Hn |]. split; [exact He | exact Hp].
Defined.

(** C3, as stated, fails: a request carrying the phone of a stored contact
    is answered 400 when a field is missing or does not validate, and an
    update of an unknown id is answered 404; none of them is a 409. *)
Lemma duplicate_phone_not_always_409 :
  (∃ d, oneContact !! 1 = Some d ∧ phone d = str "5551234567")
  ∧ status (post_api_contacts (Env 20 2)
              (ReqBody None (Some (str "ann@example.com"))
                       (Some (str "5551234567"))) oneContact).2 = 400
  ∧ status (post_api_contacts (Env 20 2)
              (jsonBody "Ann" "ann-at-example" "5551234567")
              oneContact).2 = 400
  ∧ status (put_api_contacts_id (Env 20 2) idTwo
              (jsonBody "Ann" "ann@example.com" "5551234567")
              oneContact).2 = 404.
Proof.
  split; [| by vm_compute]. eexists. split; [by vm_compute | done].
Qed.

(** C3, amended. A create request that has its three fields, passes
    validation and whose phone (trimmed) is the phone of a stored contact is
    answered 409 with the duplicate-phone message; so is such an update
    request when its id names a stored contact other than the owner of the
    phone.  The store is left as it was, so no second contact with that
    phone is stored. *)
Theorem duplicate_phone_conflict (ev : env) (b : reqBody)
    (s : gmap N contact) (j : N) (d : contact) :
  hasAllFields b = true → passesValidation b = true →
  s !! j = Some d → phone d = Schema.setPhone (field (b_phone b)) →
  post_api_contacts ev b s =
    (s, Response 409
          (JMessage (str "This phone number is already registered.")))
  ∧ ∀ id i, castObjectId id = Some i → is_Some (s !! i) → i ≠ j →
      put_api_contacts_id ev id b s =
        (s, Response 409
              (JMessage (str "This phone number is already registered."))).
Proof.
  intros Hb Hv Hj Hp. split.
  - rewrite post_present by done. cbv zeta. rewrite Hv.
    assert (phoneTaken (Schema.setPhone (field (b_phone b))) None s = true)
      as -> by (apply phoneTaken_true; eauto).
    by rewrite orb_true_r.
  - intros id i Hid [old Hi] Hij.
    rewrite put_present by done. cbv zeta. rewrite Hid, Hv, Hi.
    assert (phoneTaken (Schema.setPhone (field (b_phone b))) (Some i) s
            = true) as ->; [| done].
    apply phoneTaken_true. exists j, d. split; [done |]. split; [done |].
    congruence.
Qed.

Lemma duplicate_phone_conflict_witness :
  hasAllFields (jsonBody "Ann" "ann@example.com" "5551234567") = true
  ∧ passesValidation (jsonBody "Ann" "ann@example.com" "5551234567") = true
  ∧ twoContacts !! 1 = Some (mkContact 1 (str "Bob Smith")
                               (str "bob@example.com") (str "5551234567")
                               10 10)
  ∧ post_api_contacts (Env 30 3)
      (jsonBody "Ann" "ann@example.com" "5551234567") twoContacts =
      (twoContacts,
       Response 409
         (JMessage (str "This phone number is already registered.")))
  ∧ put_api_contacts_id (Env 30 3) idTwo
      (jsonBody "Ann" "ann@example.com" "5551234567") twoContacts =
      (twoContacts,
       Response 409
         (JMessage (str "This phone number is already registered."))).
Proof.
  assert (hasAllFields (jsonBody "Ann" "ann@example.com" "5551234567")
          = true) as H1 by reflexivity.
  assert (passesValidation (jsonBody "Ann" "ann@example.com" "5551234567")
          = true) as H2 by (vm_compute; reflexivity).
  assert (twoContacts !! 1 = Some (mkContact 1 (str "Bob Smith")
            (str "bob@example.com") (str "5551234567") 10 10)) as H3
    by (vm_compute; reflexivity).
  split; [exact H1 |]. split; [exact H2 |]. split; [exact H3 |].
  pose proof (duplicate_phone_conflict (Env 30 3) _ twoContacts 1 _
                H1 H2 H3 eq_refl) as [Hpost Hput].
  split; [exact Hpost |].
  apply (Hput idTwo 2); [reflexivity | | discriminate].
  exists (mkContact 2 (str "bobby") (str "bobby@example.com")
            (str "5550000000") 20 20).
  vm_compute; reflexivity.
Defined.

(** C4. In every store reachable from the empty collection by create,
    update and delete requests (and searches), no two contacts share a
    phone. *)
Theorem reachable_uniquePhones (s : gmap N contact) :
  reachable s → uniquePhones s.
Proof.
  induction 1 as [|ev r s _ IH];
    [apply uniquePhones_empty | by apply handle_uniquePhones].
Qed.

Lemma reachable_uniquePhones_witness :
  reachable twoContacts ∧ uniquePhones twoContacts.
Proof.
  assert (reachable twoContacts) as H by (do 2 constructor; constructor).
  split; [exact H | exact (reachable_uniquePhones twoContacts H)].
Defined.

(** C5. A create or update request in which name, email or phone is missing
    or empty is answered 400 with the fields-are-required message, whatever
    the other fields, the id and the store are, and the store is left as it
    was: the presence check comes before validation and before any write. *)
Theorem presence_check_first (ev : env) (id : list ascii) (b : reqBody)
    (s : gmap N contact) :
  missingOrEmpty (b_name b) ∨ missingOrEmpty (b_email b)
    ∨ missingOrEmpty (b_phone b) →
  post_api_contacts ev b s =
    (s, Response 400
          (JMessage (str "Name, email, and phone fields are required.")))
  ∧ put_api_contacts_id ev id b s =
    (s, Response 400 (JMessage (str "Name, email, and phone are required."))).
Proof.
  intros H%hasAllFields_false. by rewrite post_absent, put_absent.
Qed.

Lemma presence_check_first_witness :
  (missingOrEmpty (b_name (ReqBody (Some (str "Bob")) None (Some (str "12345"))))
   ∨ missingOrEmpty (b_email (ReqBody (Some (str "Bob")) None (Some (str "12345"))))
   ∨ missingOrEmpty (b_phone (ReqBody (Some (str "Bob")) None (Some (str "12345")))))
  ∧ post_api_contacts (Env 10 1)
      (ReqBody (Some (str "Bob")) None (Some (str "12345"))) oneContact =
      (oneContact,
       Response 400
         (JMessage (str "Name, email, and phone fields are required.")))
  ∧ put_api_contacts_id (Env 10 1) (str "no-such-id")
      (ReqBody (Some (str "Bob")) None (Some (str "12345"))) oneContact =
      (oneContact,
       Response 400 (JMessage (str "Name, email, and phone are required."))).
Proof.
  assert (missingOrEmpty (b_name (ReqBody (Some (str "Bob")) None (Some (str "12345"))))
   ∨ missingOrEmpty (b_email (ReqBody (Some (str "Bob")) None (Some (str "12345"))))
   ∨ missingOrEmpty (b_phone (ReqBody (Some (str "Bob")) None (Some (str "12345")))))
    as H by (right; left; left; reflexivity).
  split; [exact H |].
  exact (presence_check_first (Env 10 1) (str "no-such-id") _ oneContact H).
Defined.



(** C7, as stated, fails: [.] in the email pattern does not match a line
    terminator, so an email whose [@] follows a line break is rejected
    although it is non-empty and reads [X@Y.Z]. *)
Lemma email_with_line_break_rejected :
  trim brokenLineEmail ≠ []
  ∧ fullShape (trim brokenLineEmail)
  ∧ Schema.validateEmail (Schema.setEmail brokenLineEmail) ≠ None
  ∧ status (post_api_contacts (Env 10 1)
              (ReqBody (Some (str "Ann")) (Some brokenLineEmail)
                       (Some (str "5550000009"))) ∅).2 = 400.
Proof.
  split. { vm_compute. discriminate. }
  split.
  { exists (str "ann" ++ [ascii_of_N 10]), (str "example"), (str "com").
    vm_compute. repeat split; discriminate. }
  split. { vm_compute. discriminate. }
  vm_compute. reflexivity.
Qed.

(** C7, amended. Email validation fails, and a create or update that is
    otherwise valid is answered 400, if and only if the trimmed email is
    empty or holds no piece [X@Y.Z] with [X], [Y], [Z] non-empty and free
    of line terminators; for an email without line terminators that is: if
    and only if the trimmed email is empty or does not read [X@Y.Z] as a
    whole with non-empty [X], [Y], [Z]. *)
Theorem email_validation (ev : env) (id : list ascii) (i : N)
    (n e p : list ascii) (s : gmap N contact) :
  Schema.validateName (Schema.setName n) = None →
  Schema.validatePhone (Schema.setPhone p) = None →
  castObjectId id = Some i →
  (Schema.validateEmail (Schema.setEmail e) ≠ None ↔
     trim e = [] ∨ ¬ emailShaped (trim e))
  ∧ (status (post_api_contacts ev (ReqBody (Some n) (Some e) (Some p)) s).2
       = 400 ↔ trim e = [] ∨ ¬ emailShaped (trim e))
  ∧ (status (put_api_contacts_id ev id
               (ReqBody (Some n) (Some e) (Some p)) s).2
       = 400 ↔ trim e = [] ∨ ¬ emailShaped (trim e))
  ∧ (noLineTerminator e → emailShaped (trim e) ↔ fullShape (trim e)).
Proof.
  intros Hn Hp Hid.
  assert (Schema.validateEmail (Schema.setEmail e) ≠ None ↔
          trim e = [] ∨ ¬ emailShaped (trim e)) as Hv.
  { rewrite validateEmail_setEmail.
    destruct (decide (trim e = [])); tauto. }
  assert (n ≠ []) as Hn0 by (intros ->; discriminate Hn).
  assert (p ≠ []) as Hp0 by (intros ->; discriminate Hp).
  set (b := ReqBody (Some n) (Some e) (Some p)).
  assert (passesValidation b = false ↔
          Schema.validateEmail (Schema.setEmail e) ≠ None) as Hpv.
  { rewrite <- not_true_iff_false, passesValidation_true. simpl. tauto. }
  split; [exact Hv |].
  destruct e as [|a e].
  - assert (hasAllFields b = false) as Hb.
    { unfold hasAllFields, b. simpl. by destruct n. }
    split; [by rewrite post_absent; [split; [left |] |] |].
    split; [by rewrite put_absent; [split; [left |] |] |].
    intros _. split.
    + intros (pre & X & Y & Z & post & H & _). exfalso.
      change (trim []) with (@nil ascii) in H. symmetry in H.
      apply app_eq_nil in H as [_ [H _]%app_eq_nil].
      by apply app_eq_nil in H as [_ ?].
    + intros (X & Y & Z & H & _). exfalso.
      change (trim []) with (@nil ascii) in H. symmetry in H.
      by apply app_eq_nil in H as [_ ?].
  - assert (hasAllFields b = true) as Hb.
    { unfold hasAllFields, b. simpl. by destruct n, p. }
    split; [by rewrite post_status_400, Hpv |].
    split; [by rewrite (put_status_400 _ _ i), Hpv |].
    intros Hl. by apply emailShaped_fullShape, noLineTerminator_trim.
Qed.

Lemma email_validation_witness :
  Schema.validateName (Schema.setName (str "Ann")) = None
  ∧ Schema.validatePhone (Schema.setPhone (str "5550000009")) = None
  ∧ castObjectId idOne = Some 1
  ∧ (status (post_api_contacts (Env 20 2)
               (ReqBody (Some (str "Ann")) (Some (str "ann.example.com"))
                        (Some (str "5550000009"))) oneContact).2 = 400
     ↔ trim (str "ann.example.com") = []
       ∨ ¬ emailShaped (trim (str "ann.example.com"))).
Proof.
  assert (Schema.validateName (Schema.setName (str "Ann")) = None) as H1
    by reflexivity.
  assert (Schema.validatePhone (Schema.setPhone (str "5550000009")) = None)
    as H2 by (vm_compute; reflexivity).
  assert (castObjectId idOne = Some 1) as H3 by reflexivity.
  split; [exact H1 |]. split; [exact H2 |]. split; [exact H3 |].
  exact (proj1 (proj2 (email_validation (Env 20 2) idOne 1 (str "Ann")
                         (str "ann.example.com") (str "5550000009")
                         oneContact H1 H2 H3))).
Defined.

(** C8, as stated, fails: an id that cannot be cast names no contact, yet
    the delete is answered 500; and an update of an unknown id whose body
    lacks its fields, or does not validate, is answered 400. *)
Lemma unknown_id_not_always_404 :
  ¬ identifies (str "no-such-id") oneContact
  ∧ status (delete_api_contacts_id (str "no-such-id") oneContact).2 = 500
  ∧ ¬ identifies idTwo oneContact
  ∧ status (put_api_contacts_id (Env 50 9) idTwo (ReqBody None None None)
              oneContact).2 = 400
  ∧ status (put_api_contacts_id (Env 50 9) idTwo
              (jsonBody "Bob" "bob-at-example" "5551234567")
              oneContact).2 = 400.
Proof.
  split; [| split; [by vm_compute | split; [| by vm_compute]]].
  - intros (i & c & Hi & _). by vm_compute in Hi.
  - intros (i & c & Hi & Hc). vm_compute in Hi. injection Hi as <-.
    by vm_compute in Hc.
Qed.

(** C8, amended. When the id is a well-formed ObjectId that names no stored
    contact, a delete is answered 404, and so is an update whose body has
    its three fields and passes validation (otherwise the update is
    answered 400); the store is left as it was. *)
Theorem unknown_id_not_found (ev : env) (id : list ascii) (i : N)
    (b : reqBody) (s : gmap N contact) :
  castObjectId id = Some i → s !! i = None →
  delete_api_contacts_id id s =
    (s, Response 404 (JMessage (str "Contact not found")))
  ∧ (put_api_contacts_id ev id b s).1 = s
  ∧ (hasAllFields b = true → passesValidation b = true →
     put_api_contacts_id ev id b s =
       (s, Response 404 (JMessage (str "Contact not found"))))
  ∧ (hasAllFields b = false ∨ passesValidation b = false →
     status (put_api_contacts_id ev id b s).2 = 400).
Proof.
  intros Hid Hi. rewrite delete_cases, Hid, Hi. split; [done |].
  destruct (hasAllFields b) eqn:Hb.
  - rewrite put_present by done. cbv zeta. rewrite Hid, Hi.
    destruct (passesValidation b); (split; [done |]).
    + split; [done |]. by intros [|].
    + split; [done |]. by intros _.
  - rewrite put_absent by done. split; [done |]. split; [done |].
    by intros _.
Qed.

Lemma unknown_id_not_found_witness :
  castObjectId idTwo = Some 2 ∧ oneContact !! 2 = None
  ∧ delete_api_contacts_id idTwo oneContact =
      (oneContact, Response 404 (JMessage (str "Contact not found")))
  ∧ put_api_contacts_id (Env 50 9) idTwo bobSmith oneContact =
      (oneContact, Response 404 (JMessage (str "Contact not found"))).
Proof.
  assert (castObjectId idTwo = Some 2) as H1 by reflexivity.
  assert (oneContact !! 2 = None) as H2 by (vm_compute; reflexivity).
  split; [exact H1 |]. split; [exact H2 |].
  pose proof (unknown_id_not_found (Env 50 9) idTwo 2 bobSmith oneContact
                H1 H2) as (Hd & _ & Hp & _).
  split; [exact Hd |].
  apply Hp; vm_compute; reflexivity.
Defined.

(** C9. A successful update replaces name, email and phone of the contact
    the id names and sets its updatedAt to the current time; its id and its
    createdAt are what they were, and every other contact is untouched. *)
Theorem update_frame (ev : env) (id : list ascii) (b : reqBody)
    (s : gmap N contact) :
  status (put_api_contacts_id ev id b s).2 = 200 →
  ∃ i old new,
    castObjectId id = Some i ∧ s !! i = Some old ∧
    put_api_contacts_id ev id b s =
      (<[i := new]> s, Response 200 (JContact new)) ∧
    _id new = _id old ∧ createdAt new = createdAt old ∧
    updatedAt new = now ev ∧
    name new = Schema.setName (field (b_name b)) ∧
    email new = Schema.setEmail (field (b_email b)) ∧
    phone new = Schema.setPhone (field (b_phone b)) ∧
    ∀ j, j ≠ i → (put_api_contacts_id ev id b s).1 !! j = s !! j.
Proof.
  destruct (hasAllFields b) eqn:Hb; [| by rewrite put_absent].
  rewrite put_present by done. cbv zeta.
  destruct (castObjectId id) as [i|]; [| done].
  destruct (passesValidation b); [| done].
  destruct (s !! i) as [old|] eqn:Hi; [| done].
  destruct (phoneTaken _ _ _); [done |]. intros _.
  eexists i, old, _. do 9 (split; [done |]).
  intros j Hj. simpl. by rewrite lookup_insert_ne.
Qed.

Lemma update_frame_witness :
  status (put_api_contacts_id (Env 50 9) idOne
            (jsonBody " Robert Smith " "Rob@Example.com" "5559876543")
            twoContacts).2 = 200
  ∧ ∃ i old new,
      castObjectId idOne = Some i ∧ twoContacts !! i = Some old ∧
      put_api_contacts_id (Env 50 9) idOne
        (jsonBody " Robert Smith " "Rob@Example.com" "5559876543")
        twoContacts =
        (<[i := new]> twoContacts, Response 200 (JContact new)) ∧
      _id new = _id old ∧ createdAt new = createdAt old ∧
      updatedAt new = now (Env 50 9) ∧
      name new = Schema.setName (field (b_name
        (jsonBody " Robert Smith " "Rob@Example.com" "5559876543"))) ∧
      email new = Schema.setEmail (field (b_email
        (jsonBody " Robert Smith " "Rob@Example.com" "5559876543"))) ∧
      phone new = Schema.setPhone (field (b_phone
        (jsonBody " Robert Smith " "Rob@Example.com" "5559876543"))) ∧
      ∀ j, j ≠ i →
        (put_api_contacts_id (Env 50 9) idOne
           (jsonBody " Robert Smith " "Rob@Example.com" "5559876543")
           twoContacts).1 !! j = twoContacts !! j.
Proof.
  assert (status (put_api_contacts_id (Env 50 9) idOne
            (jsonBody " Robert Smith " "Rob@Example.com" "5559876543")
            twoContacts).2 = 200) as H by (vm_compute; reflexivity).
  split; [exact H |].
  exact (update_frame (Env 50 9) idOne _ twoContacts H).
Defined.

(** C10, as stated, fails for an update whose body lacks a field: the
    presence check answers 400 before the id is ever cast. *)
Lemma uncastable_id_update_without_fields :
  castObjectId (str "no-such-id") = None
  ∧ status (put_api_contacts_id (Env 10 1) (str "no-such-id")
              (ReqBody None None None) oneContact).2 = 400
  ∧ status (put_api_contacts_id (Env 10 1) (str "no-such-id")
              (ReqBody None None None) oneContact).2 ≠ 500.
Proof. by vm_compute. Qed.

(** C10, amended. When the id cannot be cast to an ObjectId, a delete is
    answered 500, and so is an update whose body has its three fields (an
    update lacking one is answered 400 by the presence check); the cast
    error is neither a validation error nor a duplicate key, and the store
    is left as it was. *)
Theorem uncastable_id_server_error (ev : env) (id : list ascii) (b : reqBody)
    (s : gmap N contact) :
  castObjectId id = None →
  delete_api_contacts_id id s =
    (s, Response 500 (JError (str "Error deleting contact") (CastError id)))
  ∧ put_api_contacts_id ev id b s =
    (s, if hasAllFields b
        then Response 500 (JError (str "Error updating contact") (CastError id))
        else Response 400
               (JMessage (str "Name, email, and phone are required.")))
  ∧ errName (CastError id) ≠ "ValidationError"
  ∧ errCode (CastError id) ≠ Some 11000.
Proof.
  intros Hid. rewrite delete_cases, Hid. split; [done |].
  split; [| done].
  destruct (hasAllFields b) eqn:Hb; [| by rewrite put_absent].
  rewrite put_present by done. cbv zeta. by rewrite Hid.
Qed.

Lemma uncastable_id_server_error_witness :
  castObjectId (str "no-such-id") = None
  ∧ delete_api_contacts_id (str "no-such-id") oneContact =
      (oneContact,
       Response 500 (JError (str "Error deleting contact")
                            (CastError (str "no-such-id"))))
  ∧ put_api_contacts_id (Env 50 9) (str "no-such-id") bobSmith oneContact =
      (oneContact,
       if hasAllFields bobSmith
       then Response 500 (JError (str "Error updating contact")
                                 (CastError (str "no-such-id")))
       else Response 400
              (JMessage (str "Name, email, and phone are required.")))
  ∧ errName (CastError (str "no-such-id")) ≠ "ValidationError"
  ∧ errCode (CastError (str "no-such-id")) ≠ Some 11000.
Proof.
  assert (castObjectId (str "no-such-id") = None) as H by reflexivity.
  split; [exact H |].
  exact (uncastable_id_server_error (Env 50 9) (str "no-such-id") bobSmith
           oneContact H).
Defined.

(* ================================================================== *)
(** * Further properties of the routes *)

(** ** Trimming *)

Lemma trimStart_nil v : trimStart v = [] ↔ allWhiteSpace v.
Proof.
  unfold allWhiteSpace. induction v as [|a v IH]; simpl.
  - split; [constructor | done].
  - destruct (Char.isWhiteSpace a) eqn:Ha.
    + rewrite IH. split; [by constructor | by intros [_ ?]%Forall_cons].
    + split; [done |]. intros [Hc _]%Forall_cons. congruence.
Qed.

Lemma trimStart_head v :
  trimStart v = [] ∨
  ∃ a w, trimStart v = a :: w ∧ Char.isWhiteSpace a = false.
Proof.
  induction v as [|a v IH]; simpl; [by left |].
  destruct (Char.isWhiteSpace a) eqn:Ha; [done |]. right. by exists a, v.
Qed.

Lemma trimStart_fixed a w :
  Char.isWhiteSpace a = false → trimStart (a :: w) = a :: w.
Proof. intros Ha. simpl. by rewrite Ha. Qed.

Lemma trimStart_snoc v a :
  Char.isWhiteSpace a = false → trimStart (v ++ [a]) = trimStart v ++ [a].
Proof.
  intros Ha. induction v as [|b v IH]; simpl; [by rewrite Ha |].
  by destruct (Char.isWhiteSpace b).
Qed.

Lemma trimStart_idemp v : trimStart (trimStart v) = trimStart v.
Proof.
  destruct (trimStart_head v) as [-> | (a & w & -> & Ha)]; [done |].
  by apply trimStart_fixed.
Qed.

Lemma trimEnd_cons a w :
  Char.isWhiteSpace a = false →
  trimEnd (a :: w) = a :: reverse (trimStart (reverse w)).
Proof.
  intros Ha. unfold trimEnd.
  by rewrite reverse_cons, trimStart_snoc, reverse_app, reverse_singleton.
Qed.

Lemma trimEnd_idemp v : trimEnd (trimEnd v) = trimEnd v.
Proof. unfold trimEnd. by rewrite reverse_involutive, trimStart_idemp. Qed.

Lemma trim_idemp v : trim (trim v) = trim v.
Proof.
  unfold trim.
  destruct (trimStart_head v) as [-> | (a & w & -> & Ha)]; [done |].
  rewrite (trimEnd_cons a w Ha) at 1. rewrite trimStart_fixed by done.
  rewrite <- (trimEnd_cons a w Ha). apply trimEnd_idemp.
Qed.

Lemma trim_nil v : trim v = [] ↔ allWhiteSpace v.
Proof.
  rewrite <- trimStart_nil. unfold trim.
  destruct (trimStart_head v) as [-> | (a & w & -> & Ha)]; [done |].
  by rewrite trimEnd_cons.
Qed.

Lemma toLower_idemp a : Char.toLower (Char.toLower a) = Char.toLower a.
Proof. each_char a. Qed.

Lemma toLowerCase_idemp s : toLowerCase (toLowerCase s) = toLowerCase s.
Proof.
  unfold toLowerCase. rewrite <- list_fmap_compose.
  apply list_fmap_ext. intros _ a _. apply toLower_idemp.
Qed.

(** ** What the validators let through *)

Lemma validateName_spec v : Schema.validateName v = None ↔ v ≠ [].
Proof. unfold Schema.validateName. by destruct v. Qed.

Lemma validateEmail_spec v :
  Schema.validateEmail v = None ↔ v ≠ [] ∧ emailShaped v.
Proof.
  unfold Schema.validateEmail. destruct v as [|a v].
  - split; [done | by intros [? _]].
  - cbn [isNil]. rewrite <- test_emailPattern.
    destruct (test false emailPattern (a :: v)); split; try done.
    by intros [_ [=]].
Qed.

Lemma validateName_setName n :
  Schema.validateName (Schema.setName n) = None ↔ ¬ allWhiteSpace n.
Proof.
  rewrite validateName_spec. unfold Schema.setName. by rewrite trim_nil.
Qed.

Lemma validatePhone_setPhone p :
  Schema.validatePhone (Schema.setPhone p) = None ↔ tenDigits (trim p).
Proof. apply validatePhone_spec. Qed.

Lemma validated_wellFormed b i t1 t2 :
  passesValidation b = true →
  wellFormed (mkContact i (Schema.setName (field (b_name b)))
                (Schema.setEmail (field (b_email b)))
                (Schema.setPhone (field (b_phone b))) t1 t2).
Proof.
  intros (Hn & He & Hp)%passesValidation_true.
  apply validateName_spec in Hn. apply validateEmail_spec in He as [_ He].
  apply validatePhone_spec in Hp.
  unfold wellFormed, Schema.setName, Schema.setEmail, Schema.setPhone in *.
  cbn [name email phone].
  split; [done |]. split; [apply trim_idemp |].
  split; [apply trim_idemp |].
  split; [by rewrite <- trim_toLowerCase, toLowerCase_idemp |].
  by split.
Qed.

(** ** Where a stored document comes from *)

Section Lookups.

Implicit Types (s : gmap N contact) (b : reqBody) (ev : env).

Lemma post_lookup ev b s j c :
  (post_api_contacts ev b s).1 !! j = Some c →
  s !! j = Some c ∨
  (j = newObjectId ev ∧ passesValidation b = true ∧
   c = mkContact (newObjectId ev) (Schema.setName (field (b_name b)))
         (Schema.setEmail (field (b_email b)))
         (Schema.setPhone (field (b_phone b))) (now ev) (now ev)).
Proof.
  destruct (hasAllFields b) eqn:Hb; [| rewrite post_absent by done; auto].
  rewrite post_present by done. cbv zeta.
  destruct (passesValidation b); [| auto].
  destruct (_ || _); [auto |]. cbn [fst].
  destruct (decide (j = newObjectId ev)) as [->|Hj].
  - rewrite lookup_insert_eq. intros [= <-]. by right.
  - rewrite lookup_insert_ne by done. auto.
Qed.

Lemma put_lookup ev id b s j c :
  (put_api_contacts_id ev id b s).1 !! j = Some c →
  s !! j = Some c ∨
  ∃ old, castObjectId id = Some j ∧ s !! j = Some old ∧
    passesValidation b = true ∧
    c = mkContact (_id old) (Schema.setName (field (b_name b)))
          (Schema.setEmail (field (b_email b)))
          (Schema.setPhone (field (b_phone b))) (createdAt old) (now ev).
Proof.
  destruct (hasAllFields b) eqn:Hb; [| rewrite put_absent by done; auto].
  rewrite put_present by done. cbv zeta.
  destruct (castObjectId id) as [i|]; [| auto].
  destruct (passesValidation b); [| auto].
  destruct (s !! i) as [old|] eqn:Hi; [| auto].
  destruct (phoneTaken _ _ _); [auto |]. cbn [fst].
  destruct (decide (j = i)) as [->|Hj].
  - rewrite lookup_insert_eq. intros [= <-]. right. by exists old.
  - rewrite lookup_insert_ne by done. auto.
Qed.

Lemma delete_lookup id s j c :
  (delete_api_contacts_id id s).1 !! j = Some c → s !! j = Some c.
Proof.
  rewrite delete_cases. destruct (castObjectId id) as [i|]; [| done].
  destruct (s !! i); [| done]. cbn [fst].
  by intros [_ ?]%lookup_delete_Some.
Qed.

Lemma handle_wellFormed ev r s :
  (∀ i c, s !! i = Some c → wellFormed c) →
  ∀ i c, handle ev r s !! i = Some c → wellFormed c.
Proof.
  intros Hs i c. destruct r as [q | b | id b | id]; simpl.
  - apply Hs.
  - intros [H | (_ & Hv & ->)]%post_lookup; [by apply (Hs i) |].
    by apply validated_wellFormed.
  - intros [H | (old & _ & _ & Hv & ->)]%put_lookup; [by apply (Hs i) |].
    by apply validated_wellFormed.
  - intros H%delete_lookup. by apply (Hs i).
Qed.

Lemma reachable_unique s : reachable s → uniquePhones s.
Proof.
  induction 1 as [|ev r s _ IH];
    [apply uniquePhones_empty | by apply handle_uniquePhones].
Qed.

Lemma reachable_stored_wellFormed s :
  reachable s → ∀ i c, s !! i = Some c → wellFormed c.
Proof.
  induction 1 as [|ev r s _ IH]; [| by apply handle_wellFormed].
  intros i c H. by rewrite lookup_empty in H.
Qed.

End Lookups.

(** ** Status of a request whose fields are all present *)

Lemma present_fields n e p :
  n ≠ [] → e ≠ [] → p ≠ [] →
  hasAllFields (ReqBody (Some n) (Some e) (Some p)) = true.
Proof. unfold hasAllFields. simpl. by destruct n, e, p. Qed.

Lemma absent_field n e p :
  n = [] ∨ e = [] ∨ p = [] →
  hasAllFields (ReqBody (Some n) (Some e) (Some p)) = false.
Proof.
  unfold hasAllFields. simpl.
  intros [-> | [-> | ->]]; [done | by destruct n | by destruct n, e].
Qed.

Lemma setName_nonempty n :
  Schema.validateName (Schema.setName n) = None → n ≠ [].
Proof. by intros H ->. Qed.

Lemma setEmail_nonempty e :
  Schema.validateEmail (Schema.setEmail e) = None → e ≠ [].
Proof. by intros H ->. Qed.

Lemma setPhone_nonempty p :
  Schema.validatePhone (Schema.setPhone p) = None → p ≠ [].
Proof. by intros H ->. Qed.

(** X1. Every contact of a reachable store has a non-empty trimmed name,
    a trimmed lower-case email that matches the email pattern, and a phone
    of exactly ten digits: nothing invalid is ever stored. *)
Theorem stored_contacts_wellFormed (s : gmap N contact) (i : N)
    (c : contact) :
  reachable s → s !! i = Some c → wellFormed c.
Proof.
  intros Hs. revert i c.
  induction Hs as [|ev r s _ IH]; intros i c.
  - by rewrite lookup_empty.
  - by apply handle_wellFormed.
Qed.

Lemma stored_contacts_wellFormed_witness :
  reachable twoContacts
  ∧ twoContacts !! 2 = Some (mkContact 2 (str "bobby")
                               (str "bobby@example.com") (str "5550000000")
                               20 20)
  ∧ wellFormed (mkContact 2 (str "bobby") (str "bobby@example.com")
                  (str "5550000000") 20 20).
Proof.
  assert (reachable twoContacts) as H1 by (do 2 constructor; constructor).
  assert (twoContacts !! 2 = Some (mkContact 2 (str "bobby")
            (str "bobby@example.com") (str "5550000000") 20 20)) as H2
    by (vm_compute; reflexivity).
  split; [exact H1 |]. split; [exact H2 |].
  exact (stored_contacts_wellFormed twoContacts 2 _ H1 H2).
Defined.

(** X3. With a valid name and email, a create or update is answered 400
    exactly when the trimmed phone is not ten decimal digits; when that
    trimmed phone is not empty, the message of the create quotes it in the
    validator's sentence. *)
Theorem phone_validation (ev : env) (id : list ascii) (i : N)
    (n e p : list ascii) (s : gmap N contact) :
  Schema.validateName (Schema.setName n) = None →
  Schema.validateEmail (Schema.setEmail e) = None →
  castObjectId id = Some i →
  (status (post_api_contacts ev (ReqBody (Some n) (Some e) (Some p)) s).2
     = 400 ↔ ¬ tenDigits (trim p))
  ∧ (status (put_api_contacts_id ev id
               (ReqBody (Some n) (Some e) (Some p)) s).2
       = 400 ↔ ¬ tenDigits (trim p))
  ∧ (¬ tenDigits (trim p) → trim p ≠ [] →
     post_api_contacts ev (ReqBody (Some n) (Some e) (Some p)) s =
       (s, Response 400
             (JMessage (str "Contact validation failed: phone: " ++ trim p
                          ++ str " is not a valid 10-digit phone number!")))).
Proof.
  intros Hn He Hid.
  pose proof (setName_nonempty n Hn) as Hn0.
  pose proof (setEmail_nonempty e He) as He0.
  set (b := ReqBody (Some n) (Some e) (Some p)).
  assert (passesValidation b = false ↔ ¬ tenDigits (trim p)) as Hpv.
  { rewrite <- not_true_iff_false, passesValidation_true. simpl.
    rewrite validatePhone_setPhone. tauto. }
  destruct p as [|a p].
  - assert (hasAllFields b = false) as Hb by (apply absent_field; auto).
    assert (¬ tenDigits (trim [])) as Hnot by (by intros [[=] _]).
    rewrite post_absent, put_absent by done.
    split; [done |]. split; [done |]. by intros _ [].
  - assert (hasAllFields b = true) as Hb by (by apply present_fields).
    split; [by rewrite post_status_400, Hpv |].
    split; [by rewrite (put_status_400 _ _ i), Hpv |].
    intros Hnot Hne. rewrite post_present by done. cbv zeta.
    rewrite (proj2 Hpv Hnot). f_equal. f_equal. f_equal.
    unfold Schema.errors. change (field (b_name b)) with n.
    change (field (b_email b)) with e.
    change (field (b_phone b)) with (a :: p).
    rewrite Hn, He. unfold Schema.validatePhone, Schema.setPhone.
    destruct (isNil (trim (a :: p))) eqn:Hnil;
      [by apply isNil_true in Hnil |].
    destruct (test false phonePattern (trim (a :: p))) eqn:Ht.
    + exfalso. apply Hnot. by apply test_phonePattern.
    + reflexivity.
Qed.

Lemma phone_validation_witness :
  Schema.validateName (Schema.setName (str "Ann")) = None
  ∧ Schema.validateEmail (Schema.setEmail (str "ann@example.com")) = None
  ∧ castObjectId idOne = Some 1
  ∧ ¬ tenDigits (trim (str " 12345 "))
  ∧ trim (str " 12345 ") ≠ []
  ∧ post_api_contacts (Env 20 2)
      (ReqBody (Some (str "Ann")) (Some (str "ann@example.com"))
               (Some (str " 12345 "))) oneContact =
      (oneContact,
       Response 400
         (JMessage (str "Contact validation failed: phone: 12345 is not a valid 10-digit phone number!"))).
Proof.
  assert (Schema.validateName (Schema.setName (str "Ann")) = None) as H1
    by reflexivity.
  assert (Schema.validateEmail (Schema.setEmail (str "ann@example.com"))
          = None) as H2 by (vm_compute; reflexivity).
  assert (castObjectId idOne = Some 1) as H3 by reflexivity.
  assert (¬ tenDigits (trim (str " 12345 "))) as H4
    by (intros [Hl _]; vm_compute in Hl; discriminate Hl).
  assert (trim (str " 12345 ") ≠ []) as H5
    by (vm_compute; discriminate).
  split; [exact H1 |]. split; [exact H2 |]. split; [exact H3 |].
  split; [exact H4 |]. split; [exact H5 |].
  exact (proj2 (proj2 (phone_validation (Env 20 2) idOne 1 (str "Ann")
                         (str "ann@example.com") (str " 12345 ")
                         oneContact H1 H2 H3)) H4 H5).
Defined.

(** X4. With a valid email and phone, a create or update is answered 400
    exactly when the name is empty or made of white space only: such a name
    passes the presence check when it is not empty, and is then stopped by
    the required validator once it is trimmed. *)
Theorem name_validation (ev : env) (id : list ascii) (i : N)
    (n e p : list ascii) (s : gmap N contact) :
  Schema.validateEmail (Schema.setEmail e) = None →
  Schema.validatePhone (Schema.setPhone p) = None →
  castObjectId id = Some i →
  (status (post_api_contacts ev (ReqBody (Some n) (Some e) (Some p)) s).2
     = 400 ↔ allWhiteSpace n)
  ∧ (status (put_api_contacts_id ev id
               (ReqBody (Some n) (Some e) (Some p)) s).2
       = 400 ↔ allWhiteSpace n)
  ∧ (allWhiteSpace n → n ≠ [] →
     post_api_contacts ev (ReqBody (Some n) (Some e) (Some p)) s =
       (s, Response 400
             (JMessage
                (str "Contact validation failed: name: Name is required.")))).
Proof.
  intros He Hp Hid.
  pose proof (setEmail_nonempty e He) as He0.
  pose proof (setPhone_nonempty p Hp) as Hp0.
  set (b := ReqBody (Some n) (Some e) (Some p)).
  assert (passesValidation b = false ↔ allWhiteSpace n) as Hpv.
  { rewrite <- not_true_iff_false, passesValidation_true. simpl.
    rewrite <- trim_nil, validateName_spec. unfold Schema.setName.
    destruct (decide (trim n = [])); tauto. }
  destruct n as [|a n].
  - assert (hasAllFields b = false) as Hb by (apply absent_field; auto).
    rewrite post_absent, put_absent by done.
    split; [by split; [constructor |] |].
    split; [by split; [constructor |] |]. by intros _ [].
  - assert (hasAllFields b = true) as Hb by (by apply present_fields).
    split; [by rewrite post_status_400, Hpv |].
    split; [by rewrite (put_status_400 _ _ i), Hpv |].
    intros Hws _. rewrite post_present by done. cbv zeta.
    rewrite (proj2 Hpv Hws). f_equal. f_equal. f_equal.
    unfold Schema.errors. change (field (b_name b)) with (a :: n).
    change (field (b_email b)) with e. change (field (b_phone b)) with p.
    rewrite He, Hp. unfold Schema.setName.
    by rewrite (proj2 (trim_nil _) Hws).
Qed.

Lemma name_validation_witness :
  Schema.validateEmail (Schema.setEmail (str "ann@example.com")) = None
  ∧ Schema.validatePhone (Schema.setPhone (str "5550000009")) = None
  ∧ castObjectId idOne = Some 1
  ∧ allWhiteSpace (str "   ")
  ∧ post_api_contacts (Env 20 2)
      (ReqBody (Some (str "   ")) (Some (str "ann@example.com"))
               (Some (str "5550000009"))) oneContact =
      (oneContact,
       Response 400
         (JMessage
            (str "Contact validation failed: name: Name is required."))).
Proof.
  assert (Schema.validateEmail (Schema.setEmail (str "ann@example.com"))
          = None) as H1 by (vm_compute; reflexivity).
  assert (Schema.validatePhone (Schema.setPhone (str "5550000009")) = None)
    as H2 by (vm_compute; reflexivity).
  assert (castObjectId idOne = Some 1) as H3 by reflexivity.
  assert (allWhiteSpace (str "   ")) as H4 by (repeat constructor).
  assert (str "   " ≠ []) as H5 by discriminate.
  split; [exact H1 |]. split; [exact H2 |]. split; [exact H3 |].
  split; [exact H4 |].
  exact (proj2 (proj2 (name_validation (Env 20 2) idOne 1 (str "   ")
                         (str "ann@example.com") (str "5550000009")
                         oneContact H1 H2 H3)) H4 H5).
Defined.

(** X5. A create that is not answered 201, and an update or a delete that
    is not answered 200, leave the collection exactly as it was. *)
Theorem failure_leaves_store (ev : env) (id : list ascii) (b : reqBody)
    (s : gmap N contact) :
  (status (post_api_contacts ev b s).2 ≠ 201 →
   (post_api_contacts ev b s).1 = s)
  ∧ (status (put_api_contacts_id ev id b s).2 ≠ 200 →
     (put_api_contacts_id ev id b s).1 = s)
  ∧ (status (delete_api_contacts_id id s).2 ≠ 200 →
     (delete_api_contacts_id id s).1 = s).
Proof.
  split; [| split].
  - destruct (hasAllFields b) eqn:Hb; [| by rewrite post_absent].
    rewrite post_present by done. cbv zeta.
    destruct (passesValidation b); [| done]. by destruct (_ || _).
  - destruct (hasAllFields b) eqn:Hb; [| by rewrite put_absent].
    rewrite put_present by done. cbv zeta.
    destruct (castObjectId id) as [i|]; [| done].
    destruct (passesValidation b); [| done].
    destruct (s !! i); [| done]. by destruct (phoneTaken _ _ _).
  - rewrite delete_cases. destruct (castObjectId id) as [i|]; [| done].
    by destruct (s !! i).
Qed.

Lemma failure_leaves_store_witness :
  status (post_api_contacts (Env 20 2) bobSmith oneContact).2 ≠ 201
  ∧ (post_api_contacts (Env 20 2) bobSmith oneContact).1 = oneContact.
Proof.
  assert (status (post_api_contacts (Env 20 2) bobSmith oneContact).2 ≠ 201)
    as H by (vm_compute; discriminate).
  split; [exact H |].
  exact (proj1 (failure_leaves_store (Env 20 2) idOne bobSmith oneContact) H).
Defined.

(** ** Deleting, creating and the list *)

Lemma listed_all db (s : gmap N contact) :
  listed (get_api_contacts db None s) ≡ₚ (map_to_list s).*2.
Proof. cbn [get_api_contacts falsy listed]. apply find_all_Permutation. Qed.

Lemma elem_of_listed_all db (s : gmap N contact) c :
  c ∈ listed (get_api_contacts db None s) ↔ ∃ i, s !! i = Some c.
Proof.
  cbn [get_api_contacts falsy listed]. rewrite elem_of_find. tauto.
Qed.

(** X6. Deleting a stored contact is answered 200 and removes that
    contact and no other: the full list loses exactly it, and a second
    delete of the same id is answered 404. *)
Theorem delete_existing (db : database) (id : list ascii) (i : N)
    (c : contact) (s : gmap N contact) :
  castObjectId id = Some i → s !! i = Some c →
  delete_api_contacts_id id s =
    (delete i s, Response 200 (JMessage (str "Contact deleted successfully")))
  ∧ c :: listed (get_api_contacts db None (delete i s))
      ≡ₚ listed (get_api_contacts db None s)
  ∧ (∀ d, d ∈ listed (get_api_contacts db None (delete i s)) ↔
          ∃ j, j ≠ i ∧ s !! j = Some d)
  ∧ delete_api_contacts_id id (delete i s) =
      (delete i s, Response 404 (JMessage (str "Contact not found"))).
Proof.
  intros Hid Hi. rewrite !delete_cases, Hid, Hi, lookup_delete_eq.
  split; [done |]. split; [| split; [| done]].
  - rewrite !listed_all, <- (map_to_list_delete s i c Hi). done.
  - intros d. rewrite elem_of_listed_all. split.
    + intros [j [Hj Hd]%lookup_delete_Some]. eauto.
    + intros (j & Hj & Hd). exists j. by apply lookup_delete_Some.
Qed.

Lemma delete_existing_witness :
  castObjectId idOne = Some 1
  ∧ twoContacts !! 1 = Some (mkContact 1 (str "Bob Smith")
                               (str "bob@example.com") (str "5551234567")
                               10 10)
  ∧ delete_api_contacts_id idOne twoContacts =
      (delete 1 twoContacts,
       Response 200 (JMessage (str "Contact deleted successfully")))
  ∧ delete_api_contacts_id idOne (delete 1 twoContacts) =
      (delete 1 twoContacts,
       Response 404 (JMessage (str "Contact not found"))).
Proof.
  assert (castObjectId idOne = Some 1) as H1 by reflexivity.
  assert (twoContacts !! 1 = Some (mkContact 1 (str "Bob Smith")
            (str "bob@example.com") (str "5551234567") 10 10)) as H2
    by (vm_compute; reflexivity).
  split; [exact H1 |]. split; [exact H2 |].
  destruct (delete_existing sampleDatabase idOne 1 _ twoContacts H1 H2)
    as (Hd & _ & _ & Hagain).
  split; [exact Hd | exact Hagain].
Defined.

(** X7. A create answered 201 stores the new contact under the generated
    id, which was free, with createdAt and updatedAt both set to the current
    time; every other contact stays, and the full list is the former list
    and the new contact. *)
Theorem create_extends_list (db : database) (ev : env) (b : reqBody)
    (s : gmap N contact) :
  status (post_api_contacts ev b s).2 = 201 →
  ∃ c,
    post_api_contacts ev b s =
      (<[newObjectId ev := c]> s, Response 201 (JContact c)) ∧
    s !! newObjectId ev = None ∧
    _id c = newObjectId ev ∧ createdAt c = now ev ∧ updatedAt c = now ev ∧
    listed (get_api_contacts db None (post_api_contacts ev b s).1)
      ≡ₚ c :: listed (get_api_contacts db None s).
Proof.
  destruct (hasAllFields b) eqn:Hb; [| by rewrite post_absent].
  rewrite post_present by done. cbv zeta.
  destruct (passesValidation b); [| done].
  destruct (bool_decide (is_Some (s !! newObjectId ev))) eqn:Hfree;
    [done |].
  destruct (phoneTaken _ _ _); [done |]. intros _.
  apply bool_decide_eq_false in Hfree.
  assert (s !! newObjectId ev = None) as Hnone.
  { destruct (s !! newObjectId ev) eqn:E; [| done].
    exfalso. apply Hfree. by eexists. }
  eexists. split; [done |]. do 4 (split; [done |]). cbn [orb fst].
  by rewrite !listed_all, map_to_list_insert.
Qed.

Lemma create_extends_list_witness :
  status (post_api_contacts (Env 20 2)
            (jsonBody "bobby" "bobby@example.com" "5550000000")
            oneContact).2 = 201
  ∧ ∃ c,
      post_api_contacts (Env 20 2)
        (jsonBody "bobby" "bobby@example.com" "5550000000") oneContact =
        (<[2 := c]> oneContact, Response 201 (JContact c)) ∧
      createdAt c = 20 ∧ updatedAt c = 20.
Proof.
  assert (status (post_api_contacts (Env 20 2)
            (jsonBody "bobby" "bobby@example.com" "5550000000")
            oneContact).2 = 201) as H by (vm_compute; reflexivity).
  split; [exact H |].
  destruct (create_extends_list sampleDatabase (Env 20 2) _ oneContact H)
    as (c & Hc & _ & _ & Hcr & Hup & _).
  exists c. split; [exact Hc |]. split; [exact Hcr | exact Hup].
Defined.

(** X8. In a collection whose phones are unique, an update that keeps the
    phone of the contact it targets never conflicts with that contact
    itself: with its fields present and valid it is answered 200. *)
Theorem update_keeps_own_phone (ev : env) (id : list ascii) (i : N)
    (old : contact) (b : reqBody) (s : gmap N contact) :
  uniquePhones s →
  hasAllFields b = true → passesValidation b = true →
  castObjectId id = Some i → s !! i = Some old →
  Schema.setPhone (field (b_phone b)) = phone old →
  status (put_api_contacts_id ev id b s).2 = 200.
Proof.
  intros Hu Hb Hv Hid Hi Hp. rewrite put_present by done. cbv zeta.
  rewrite Hid, Hv, Hi.
  assert (phoneTaken (Schema.setPhone (field (b_phone b))) (Some i) s
          = false) as ->; [| done].
  apply phoneTaken_false. intros j d Hj Hd. f_equal.
  apply (Hu i j old d); [done | done | congruence].
Qed.

Lemma update_keeps_own_phone_witness :
  uniquePhones twoContacts
  ∧ hasAllFields (jsonBody "Robert Smith" "rob@example.com" "5551234567")
    = true
  ∧ passesValidation (jsonBody "Robert Smith" "rob@example.com" "5551234567")
    = true
  ∧ castObjectId idOne = Some 1
  ∧ twoContacts !! 1 = Some (mkContact 1 (str "Bob Smith")
                               (str "bob@example.com") (str "5551234567")
                               10 10)
  ∧ status (put_api_contacts_id (Env 50 9) idOne
              (jsonBody "Robert Smith" "rob@example.com" "5551234567")
              twoContacts).2 = 200.
Proof.
  assert (uniquePhones twoContacts) as H0.
  { apply handle_uniquePhones, handle_uniquePhones, uniquePhones_empty. }
  assert (hasAllFields (jsonBody "Robert Smith" "rob@example.com"
                          "5551234567") = true) as H1 by reflexivity.
  assert (passesValidation (jsonBody "Robert Smith" "rob@example.com"
                              "5551234567") = true) as H2
    by (vm_compute; reflexivity).
  assert (castObjectId idOne = Some 1) as H3 by reflexivity.
  assert (twoContacts !! 1 = Some (mkContact 1 (str "Bob Smith")
            (str "bob@example.com") (str "5551234567") 10 10)) as H4
    by (vm_compute; reflexivity).
  split; [exact H0 |]. split; [exact H1 |]. split; [exact H2 |].
  split; [exact H3 |]. split; [exact H4 |].
  exact (update_keeps_own_phone (Env 50 9) idOne 1 _ _ twoContacts
           H0 H1 H2 H3 H4 eq_refl).
Defined.

(** X9. Deleting a contact frees its phone: in a collection whose phones
    are unique, a valid create carrying the phone of the contact just
    deleted, under an id the collection does not hold, is answered 201. *)
Theorem delete_frees_phone (ev : env) (id : list ascii) (i : N)
    (c : contact) (b : reqBody) (s : gmap N contact) :
  uniquePhones s →
  castObjectId id = Some i → s !! i = Some c →
  hasAllFields b = true → passesValidation b = true →
  Schema.setPhone (field (b_phone b)) = phone c →
  delete i s !! newObjectId ev = None →
  status (post_api_contacts ev b (delete_api_contacts_id id s).1).2 = 201.
Proof.
  intros Hu Hid Hi Hb Hv Hp Hfree.
  rewrite delete_cases, Hid, Hi. cbn [fst].
  rewrite post_present by done. cbv zeta. rewrite Hv, Hfree.
  assert (phoneTaken (Schema.setPhone (field (b_phone b))) None (delete i s)
          = false) as ->.
  { apply phoneTaken_false. intros j d [Hji Hj]%lookup_delete_Some Hd.
    exfalso. apply Hji. apply (Hu i j c d); [done | done | congruence]. }
  by rewrite bool_decide_eq_false_2 by (by intros [? [=]]).
Qed.

Lemma delete_frees_phone_witness :
  uniquePhones twoContacts
  ∧ castObjectId idOne = Some 1
  ∧ twoContacts !! 1 = Some (mkContact 1 (str "Bob Smith")
                               (str "bob@example.com") (str "5551234567")
                               10 10)
  ∧ hasAllFields (jsonBody "Ann" "ann@example.com" "5551234567") = true
  ∧ passesValidation (jsonBody "Ann" "ann@example.com" "5551234567") = true
  ∧ delete 1 twoContacts !! newObjectId (Env 60 7) = None
  ∧ status (post_api_contacts (Env 60 7)
              (jsonBody "Ann" "ann@example.com" "5551234567")
              (delete_api_contacts_id idOne twoContacts).1).2 = 201.
Proof.
  assert (uniquePhones twoContacts) as H0.
  { apply handle_uniquePhones, handle_uniquePhones, uniquePhones_empty. }
  assert (castObjectId idOne = Some 1) as H1 by reflexivity.
  assert (twoContacts !! 1 = Some (mkContact 1 (str "Bob Smith")
            (str "bob@example.com") (str "5551234567") 10 10)) as H2
    by (vm_compute; reflexivity).
  assert (hasAllFields (jsonBody "Ann" "ann@example.com" "5551234567")
          = true) as H3 by reflexivity.
  assert (passesValidation (jsonBody "Ann" "ann@example.com" "5551234567")
          = true) as H4 by (vm_compute; reflexivity).
  assert (delete 1 twoContacts !! newObjectId (Env 60 7) = None) as H5
    by (vm_compute; reflexivity).
  split; [exact H0 |]. split; [exact H1 |]. split; [exact H2 |].
  split; [exact H3 |]. split; [exact H4 |]. split; [exact H5 |].
  exact (delete_frees_phone (Env 60 7) idOne 1 _ _ twoContacts
           H0 H1 H2 H3 H4 eq_refl H5).
Defined.

(** ** More on searching *)

Lemma parseLoop_plain_app sub rest : ∀ f stack,
  plainText sub →
  parseLoop f stack (sub ++ rest) =
    parseLoop (Frame (alts f)
                 (reverse ((λ c, Atom (CChar c)) <$> sub) ++ terms f)
                 (if isNil sub then lastTerm f else CanRepeat))
              stack rest.
Proof.
  induction sub as [|c sub IH]; intros f stack Hp.
  - by destruct f.
  - apply Forall_cons in Hp as [Hc Hp].
    cbn [app parseLoop]. rewrite (classify_plain c Hc), (IH _ _ Hp).
    cbn [pushAtom alts terms lastTerm fmap list_fmap isNil].
    rewrite reverse_cons, <- app_assoc. simpl. by destruct sub.
Qed.

Lemma parseRegExp_anchored sub :
  plainText sub →
  parseRegExp ("^"%char :: sub) = Parsed (Cat Bol (literal sub)).
Proof.
  intros Hp. unfold parseRegExp. cbn [parseLoop].
  change (classify "^") with TCaret. cbv iota.
  rewrite parseLoop_plain by done.
  cbn [parseLoop disjunction alts terms pushAssertion emptyFrame fold_left].
  unfold alternative, literal.
  by rewrite reverse_app, reverse_involutive.
Qed.

Lemma test_anchored_literal sub v :
  test true (Cat Bol (literal sub)) v = true ↔ startsWithCI v sub.
Proof.
  rewrite test_spec. unfold startsWithCI. split.
  - intros (pre & mid & post & -> & H).
    apply rmatch_cat_inv in H as (w1 & w2 & -> & H1 & H2).
    apply rmatch_bol_inv in H1 as [-> ->%isNil_true].
    apply rmatch_literal_icase in H2.
    exists (toLowerCase post). unfold toLowerCase in *. simpl.
    by rewrite fmap_app, H2.
  - intros (post' & H). unfold toLowerCase in H.
    apply fmap_app_inv in H as (mid & post & Hm & -> & ->).
    exists [], mid, post. split; [done |].
    apply (MCat true _ _ _ _ [] mid); [constructor |].
    by apply rmatch_literal_icase.
Qed.

(** X13. A search string made of [^] and then characters that are neither
    syntax characters nor NUL lists exactly the stored contacts whose name
    starts with those characters, letter case apart. *)
Theorem search_prefix (db : database) (sub : list ascii)
    (s : gmap N contact) :
  plainText sub → noNul sub →
  ∃ l, get_api_contacts db (Some ("^"%char :: sub)) s =
         Response 200 (JContacts l) ∧
       ∀ c, c ∈ l ↔ (∃ i, s !! i = Some c) ∧ startsWithCI (name c) sub.
Proof.
  intros Hp Hz. unfold get_api_contacts. cbn [falsy].
  change (field (Some ("^"%char :: sub))) with ("^"%char :: sub).
  rewrite parseRegExp_anchored by done.
  rewrite noNul_existsb by (by constructor).
  eexists. split; [done |]. intros c.
  rewrite elem_of_find. by rewrite test_anchored_literal.
Qed.

Lemma search_prefix_witness :
  plainText (str "bob") ∧ noNul (str "bob")
  ∧ ∃ l, get_api_contacts sampleDatabase (Some ("^"%char :: str "bob"))
           threeContacts = Response 200 (JContacts l) ∧
         ∀ c, c ∈ l ↔
              (∃ i, threeContacts !! i = Some c)
              ∧ startsWithCI (name c) (str "bob").
Proof.
  assert (plainText (str "bob")) as H by (repeat constructor).
  assert (noNul (str "bob")) as Hz by (repeat constructor).
  split; [exact H |]. split; [exact Hz |].
  exact (search_prefix sampleDatabase (str "bob") threeContacts H Hz).
Defined.

(** X14. A search string that starts with a quantifier ([*], [+], [?]) or
    with a closing parenthesis, or that is plain text followed by a lone
    opening parenthesis or a lone backslash, is no pattern: the list route
    answers 500 with its own message and lists nothing. *)
Theorem search_not_a_pattern (db : database) (q rest sub : list ascii)
    (s : gmap N contact) :
  q = "*"%char :: rest ∨ q = "+"%char :: rest ∨ q = "?"%char :: rest
  ∨ q = ")"%char :: rest
  ∨ (plainText sub ∧ (q = sub ++ ["("%char] ∨ q = sub ++ ["\"%char])) →
  get_api_contacts db (Some q) s =
    Response 500 (JError (str "Error fetching contacts")
                         (RegExpSyntaxError q)).
Proof.
  assert (∀ q, q ≠ [] → parseRegExp q = SyntaxError →
          get_api_contacts db (Some q) s =
            Response 500 (JError (str "Error fetching contacts")
                                 (RegExpSyntaxError q))) as Hget.
  { intros q' Hne Hq. apply search_syntax_error; [by destruct q' | done]. }
  intros [-> | [-> | [-> | [-> | [Hp [-> | ->]]]]]].
  - by apply Hget.
  - by apply Hget.
  - by apply Hget.
  - by apply Hget.
  - apply Hget; [by destruct sub |]. unfold parseRegExp.
    by rewrite parseLoop_plain_app.
  - apply Hget; [by destruct sub |]. unfold parseRegExp.
    by rewrite parseLoop_plain_app.
Qed.

Lemma search_not_a_pattern_witness :
  (str "+1 555" = "*"%char :: str "1 555"
   ∨ str "+1 555" = "+"%char :: str "1 555"
   ∨ str "+1 555" = "?"%char :: str "1 555"
   ∨ str "+1 555" = ")"%char :: str "1 555"
   ∨ (plainText [] ∧ (str "+1 555" = [] ++ ["("%char]
                       ∨ str "+1 555" = [] ++ ["\"%char])))
  ∧ get_api_contacts sampleDatabase (Some (str "+1 555")) oneContact =
      Response 500 (JError (str "Error fetching contacts")
                           (RegExpSyntaxError (str "+1 555"))).
Proof.
  assert (str "+1 555" = "*"%char :: str "1 555"
   ∨ str "+1 555" = "+"%char :: str "1 555"
   ∨ str "+1 555" = "?"%char :: str "1 555"
   ∨ str "+1 555" = ")"%char :: str "1 555"
   ∨ (plainText [] ∧ (str "+1 555" = [] ++ ["("%char]
                       ∨ str "+1 555" = [] ++ ["\"%char]))) as H
    by (right; left; reflexivity).
  split; [exact H |].
  exact (search_not_a_pattern sampleDatabase (str "+1 555") (str "1 555") []
           oneContact H).
Defined.

(** ** Update against create *)

(** X15. An update whose id is a well-formed ObjectId is answered 400 for
    exactly the bodies a create is answered 400 for, whatever the stores:
    the two routes share the presence check and the validators. *)
Theorem update_validates_like_create (ev ev' : env) (id : list ascii)
    (i : N) (b : reqBody) (s s' : gmap N contact) :
  castObjectId id = Some i →
  status (put_api_contacts_id ev id b s).2 = 400 ↔
  status (post_api_contacts ev' b s').2 = 400.
Proof.
  intros Hid. destruct (hasAllFields b) eqn:Hb.
  - by rewrite (put_status_400 _ _ i), post_status_400.
  - by rewrite put_absent, post_absent.
Qed.

Lemma update_validates_like_create_witness :
  castObjectId idTwo = Some 2
  ∧ (status (put_api_contacts_id (Env 50 9) idTwo
               (jsonBody "Ann" "ann-at-example" "5550000009")
               twoContacts).2 = 400
     ↔ status (post_api_contacts (Env 60 7)
                 (jsonBody "Ann" "ann-at-example" "5550000009") ∅).2 = 400).
Proof.
  assert (castObjectId idTwo = Some 2) as H by reflexivity.
  split; [exact H |].
  exact (update_validates_like_create (Env 50 9) (Env 60 7) idTwo 2 _
           twoContacts ∅ H).
Defined.

(** ** Timestamps *)

Lemma handle_timestamps t ev r (s : gmap N contact) :
  t ≤ now ev →
  (∀ i c, s !! i = Some c → createdAt c ≤ updatedAt c ∧ updatedAt c ≤ t) →
  ∀ i c, handle ev r s !! i = Some c →
         createdAt c ≤ updatedAt c ∧ updatedAt c ≤ now ev.
Proof.
  intros Ht Hs i c.
  assert (∀ d, s !! i = Some d →
               createdAt d ≤ updatedAt d ∧ updatedAt d ≤ now ev) as Hold.
  { intros d Hd. destruct (Hs i d Hd). split; [done | lia]. }
  destruct r as [q | b | id b | id]; simpl.
  - apply Hold.
  - intros [H | (_ & _ & ->)]%post_lookup; [by apply Hold |].
    simpl. split; lia.
  - intros [H | (old & _ & Ho & _ & ->)]%put_lookup; [by apply Hold |].
    simpl. destruct (Hs i old Ho). split; lia.
  - intros H%delete_lookup. by apply Hold.
Qed.

(** X16. When requests are served in the order of a clock that never runs
    backwards, every stored contact was created no later than it was last
    updated, and last updated no later than the current time. *)
Theorem timestamps_ordered (t : N) (s : gmap N contact) (i : N)
    (c : contact) :
  reachableBy t s → s !! i = Some c →
  createdAt c ≤ updatedAt c ∧ updatedAt c ≤ t.
Proof.
  intros H. revert i c.
  induction H as [t | t ev r s _ IH Ht]; intros i c.
  - by rewrite lookup_empty.
  - by apply (handle_timestamps t).
Qed.

Lemma timestamps_ordered_witness :
  reachableBy 50
    (handle (Env 50 9)
       (PutContact idOne (jsonBody "Robert Smith" "rob@example.com"
                            "5551234567"))
       twoContacts)
  ∧ handle (Env 50 9)
      (PutContact idOne (jsonBody "Robert Smith" "rob@example.com"
                           "5551234567"))
      twoContacts !! 1 =
      Some (mkContact 1 (str "Robert Smith") (str "rob@example.com")
              (str "5551234567") 10 50)
  ∧ 10 ≤ 50 ∧ 50 ≤ 50.
Proof.
  assert (reachableBy 50
            (handle (Env 50 9)
               (PutContact idOne (jsonBody "Robert Smith" "rob@example.com"
                                    "5551234567"))
               twoContacts)) as H1.
  { apply (reachableBy_step 20 (Env 50 9)); [| by vm_compute].
    apply (reachableBy_step 10 (Env 20 2)); [| by vm_compute].
    apply (reachableBy_step 0 (Env 10 1)); [| by vm_compute].
    apply reachableBy_empty. }
  assert (handle (Env 50 9)
            (PutContact idOne (jsonBody "Robert Smith" "rob@example.com"
                                 "5551234567"))
            twoContacts !! 1 =
          Some (mkContact 1 (str "Robert Smith") (str "rob@example.com")
                  (str "5551234567") 10 50)) as H2
    by (vm_compute; reflexivity).
  split; [exact H1 |]. split; [exact H2 |].
  exact (timestamps_ordered 50 _ 1 _ H1 H2).
Defined.

(** ** Sending a contact back *)

Lemma digit_not_whiteSpace a :
  Char.isDigit a = true → Char.isWhiteSpace a = false.
Proof. each_char a. Qed.

Lemma trimStart_noWhiteSpace v :
  Forall (λ a, Char.isWhiteSpace a = false) v → trimStart v = v.
Proof. destruct 1 as [|a v Ha _]; [done | by apply trimStart_fixed]. Qed.

Lemma trim_noWhiteSpace v :
  Forall (λ a, Char.isWhiteSpace a = false) v → trim v = v.
Proof.
  intros Hv. unfold trim. rewrite trimStart_noWhiteSpace by done.
  unfold trimEnd. rewrite trimStart_noWhiteSpace by (by apply Forall_reverse).
  apply reverse_involutive.
Qed.

Lemma trim_tenDigits v : tenDigits v → trim v = v.
Proof.
  intros [_ Hd]. apply trim_noWhiteSpace.
  eapply Forall_impl; [exact Hd |]. apply digit_not_whiteSpace.
Qed.

Lemma wellFormed_bodyOf c :
  wellFormed c →
  hasAllFields (bodyOf c) = true ∧ passesValidation (bodyOf c) = true ∧
  Schema.setName (name c) = name c ∧ Schema.setEmail (email c) = email c ∧
  Schema.setPhone (phone c) = phone c.
Proof.
  intros (Hn & Htn & Hte & Hle & Hes & Hp).
  assert (Schema.setEmail (email c) = email c) as He
    by (unfold Schema.setEmail; by rewrite Hle).
  assert (Schema.setPhone (phone c) = phone c) as Hph
    by (by apply trim_tenDigits).
  assert (email c ≠ []) as He0.
  { destruct Hes as (pre & X & Y & Z & post & E & HX & _).
    rewrite E. intros [_ [[? _]%app_eq_nil _]%app_eq_nil]%app_eq_nil.
    done. }
  assert (phone c ≠ []) as Hp0 by (destruct Hp as [Hl _]; by intros E;
                                     rewrite E in Hl).
  split; [by apply present_fields |].
  split; [| done]. apply passesValidation_true.
  change (field (b_name (bodyOf c))) with (name c).
  change (field (b_email (bodyOf c))) with (email c).
  change (field (b_phone (bodyOf c))) with (phone c).
  unfold Schema.setName at 1. rewrite Htn, He, Hph.
  split; [by apply validateName_spec |].
  split; [by apply validateEmail_spec | by apply validatePhone_spec].
Qed.

(** X17. Sending a stored contact's own name, email and phone back in an
    update is accepted and changes nothing but its updatedAt: in a
    reachable store the setters and validators leave stored values as they
    are, and a contact does not conflict with its own phone. *)
Theorem update_with_own_fields (ev : env) (id : list ascii) (i : N)
    (c : contact) (s : gmap N contact) :
  reachable s → castObjectId id = Some i → s !! i = Some c →
  put_api_contacts_id ev id (bodyOf c) s =
    (<[i := mkContact (_id c) (name c) (email c) (phone c)
              (createdAt c) (now ev)]> s,
     Response 200
       (JContact (mkContact (_id c) (name c) (email c) (phone c)
                    (createdAt c) (now ev)))).
Proof.
  intros Hs Hid Hi.
  pose proof (reachable_unique s Hs) as Hu.
  pose proof (reachable_stored_wellFormed s Hs i c Hi) as Hwf.
  apply wellFormed_bodyOf in Hwf as (Hb & Hv & Hn & He & Hp).
  rewrite put_present by done. cbv zeta. rewrite Hid, Hv, Hi.
  change (field (b_name (bodyOf c))) with (name c).
  change (field (b_email (bodyOf c))) with (email c).
  change (field (b_phone (bodyOf c))) with (phone c).
  rewrite Hn, He, Hp.
  assert (phoneTaken (phone c) (Some i) s = false) as ->; [| done].
  apply phoneTaken_false. intros j d Hj Hd. f_equal.
  by apply (Hu i j c d).
Qed.

Lemma update_with_own_fields_witness :
  reachable twoContacts
  ∧ castObjectId idTwo = Some 2
  ∧ twoContacts !! 2 = Some (mkContact 2 (str "bobby")
                               (str "bobby@example.com") (str "5550000000")
                               20 20)
  ∧ put_api_contacts_id (Env 50 9) idTwo
      (bodyOf (mkContact 2 (str "bobby") (str "bobby@example.com")
                 (str "5550000000") 20 20)) twoContacts =
      (<[2 := mkContact 2 (str "bobby") (str "bobby@example.com")
                (str "5550000000") 20 50]> twoContacts,
       Response 200
         (JContact (mkContact 2 (str "bobby") (str "bobby@example.com")
                      (str "5550000000") 20 50))).
Proof.
  assert (reachable twoContacts) as H1 by (do 2 constructor; constructor).
  assert (castObjectId idTwo = Some 2) as H2 by reflexivity.
  assert (twoContacts !! 2 = Some (mkContact 2 (str "bobby")
            (str "bobby@example.com") (str "5550000000") 20 20)) as H3
    by (vm_compute; reflexivity).
  split; [exact H1 |]. split; [exact H2 |]. split; [exact H3 |].
  exact (update_with_own_fields (Env 50 9) idTwo 2 _ twoContacts H1 H2 H3).
Defined.
